(** * The ECR image pusher (main.py): a shallow embedding and its properties

    The program is a Streamlit form that lists ECR repositories, logs the
    local Docker engine into the registry and tags and pushes an image.
    Its helper functions talk to three external parties: boto3 (the cloud
    API), the [docker] command line (through [subprocess]) and the Streamlit
    page.  The embedding keeps them apart:

    - what the outside world answers is an input: an [ecr_client] carries the
      answers of the two API calls, an [env] carries the answers of the
      operating system to [boto3.client], [subprocess.run] and
      [subprocess.Popen];
    - what the program does to the outside world is an output: the list of
      [event]s (widgets written to the page, commands executed);
    - Python exceptions are results: a computation ends in [Return v] or in
      [Raise e]. *)

From Stdlib Require Import List String Ascii NArith ZArith Bool Lia Arith.
From Equations Require Import Equations.
Import ListNotations.

Set Implicit Arguments.

(** ** Python values *)

(** A Python [str] is a sequence of Unicode code points, a [bytes] object a
    sequence of octets. *)
Abbreviation str := (list N) (only parsing).
Abbreviation bytes := (list N) (only parsing).

(** A literal of the source, written as a Rocq string (ASCII only). *)
Definition lit (s : string) : str :=
  List.map N_of_ascii (list_ascii_of_string s).
Arguments lit : simpl never.

Definition str_eqb (a b : str) : bool :=
  if list_eq_dec N.eq_dec a b then true else false.

(** Truth value of a [str]: the empty string is false. *)
Definition truthy (s : str) : bool :=
  match s with [] => false | _ :: _ => true end.

(** [str.isspace] on one code point (the characters CPython treats as
    whitespace). *)
Definition isspace (c : N) : bool :=
  ((0x09 <=? c) && (c <=? 0x0D) || (0x1C <=? c) && (c <=? 0x20)
   || (c =? 0x85) || (c =? 0xA0) || (c =? 0x1680)
   || (0x2000 <=? c) && (c <=? 0x200A)
   || (c =? 0x2028) || (c =? 0x2029) || (c =? 0x202F)
   || (c =? 0x205F) || (c =? 0x3000))%N.

Fixpoint lstrip (s : str) : str :=
  match s with
  | c :: t => if isspace c then lstrip t else s
  | [] => []
  end.

(** [s.strip()]: whitespace removed at both ends. *)
Definition strip (s : str) : str := rev (lstrip (rev (lstrip s))).

(** [s.split(sep)] for a one-character separator: every occurrence
    separates, empty fields are kept. *)
Fixpoint split (sep : N) (s : str) : list str :=
  match s with
  | [] => [[]]
  | c :: t =>
      if (c =? sep)%N then [] :: split sep t
      else match split sep t with
           | f :: fs => (c :: f) :: fs
           | [] => [[c]]
           end
  end.

(** ** Exceptions *)

(** The exceptions the program can meet.  All of them derive from Python's
    [Exception].  [CalledProcessError] carries what [subprocess.run] puts in
    it; the others carry the text the world gave them, where it gave one. *)
Inductive exn : Type :=
| NoCredentialsError
| ClientError (msg : str)
| OtherError (msg : str)          (* any other exception of the SDK *)
| CalledProcessError (returncode : Z) (cmd : list str) (output stderr : str)
| OSError (msg : str)             (* the command could not be started *)
| ValueError_NonAscii             (* b64decode of a non-ASCII str *)
| BinasciiError                   (* malformed base64 *)
| UnicodeDecodeError
| IndexError                      (* [0] on an empty list *)
| ValueError_Unpack (n : nat).    (* a, b = sequence of n <> 2 values *)

(** ** The page and the commands: events *)

(** The text handed to a widget: a literal, or an f-string that
    interpolates an exception between two literals. *)
Inductive message : Type :=
| Text (s : str)
| TextExn (before : str) (e : exn) (after : str).

Inductive event : Type :=
| StInfo (m : message)
| StSuccess (m : message)
| StWarning (m : message)
| StError (m : message)
| StCode (body : str)                 (* st.code(body) *)
| StSpinnerEnter (m : message)        (* with st.spinner(m): *)
| StSpinnerExit
| StEmpty                             (* log_container = st.empty() *)
| LogCode (logs : str)                (* log_container.code(logs, 'bash') *)
| SubprocessRun (cmd : list str)      (* subprocess.run(cmd, ...) *)
| SubprocessPopen (cmd : list str).   (* subprocess.Popen(cmd, ...) *)

(** ** Computations *)

Inductive outcome (A : Type) : Type :=
| Return (a : A)
| Raise (e : exn).
Arguments Return {A} a.
Arguments Raise {A} e.

(** A computation: the events it produced, in order, and how it ended. *)
Definition M (A : Type) : Type := list event * outcome A.

Definition events {A} (m : M A) : list event := fst m.
Definition result {A} (m : M A) : outcome A := snd m.

Definition ret {A} (a : A) : M A := ([], Return a).
Definition raise {A} (e : exn) : M A := ([], Raise e).
Definition emit (ev : event) : M unit := ([ev], Return tt).

Definition bind {A B} (m : M A) (k : A -> M B) : M B :=
  match m with
  | (t, Return a) => let (t', r) := k a in (t ++ t', r)
  | (t, Raise e) => (t, Raise e)
  end.

(** [try: m except ...: h]: [h e] is [Some k] when a clause catches [e],
    [None] when none does and [e] goes on. *)
Definition try_except {A} (m : M A) (h : exn -> option (M A)) : M A :=
  match m with
  | (t, Return a) => (t, Return a)
  | (t, Raise e) =>
      match h e with
      | Some k => let (t', r) := k in (t ++ t', r)
      | None => (t, Raise e)
      end
  end.

(** [with cm: m]: the exit of the context manager runs however [m] ends. *)
Definition with_ {A} (enter exit : event) (m : M A) : M A :=
  let (t, r) := m in (enter :: t ++ [exit], r).

Declare Scope py_scope.
Delimit Scope py_scope with py.
Notation "x <- m ;; k" := (bind m (fun x => k))
  (at level 61, m at next level, right associativity) : py_scope.
Notation "m ;; k" := (bind m (fun _ => k))
  (at level 61, right associativity) : py_scope.
Open Scope py_scope.

Definition st_info (s : str) : M unit := emit (StInfo (Text s)).
Definition st_success (s : str) : M unit := emit (StSuccess (Text s)).
Definition st_warning (s : str) : M unit := emit (StWarning (Text s)).
Definition st_error (s : str) : M unit := emit (StError (Text s)).
Definition st_error_f (before : str) (e : exn) (after : str) : M unit :=
  emit (StError (TextExn before e after)).
Definition st_code (s : str) : M unit := emit (StCode s).

(** ** The outside world *)

(** What a call of the SDK can fail with. *)
Inductive sdk_error : Type :=
| SdkNoCredentials
| SdkClientError (msg : str)
| SdkOther (msg : str).

Definition exn_of_sdk (e : sdk_error) : exn :=
  match e with
  | SdkNoCredentials => NoCredentialsError
  | SdkClientError msg => ClientError msg
  | SdkOther msg => OtherError msg
  end.

(** One repository of a [describe_repositories] page and one page.  The
    responses are taken well formed: a record has the keys the program
    reads. *)
Record repository := { repositoryName : str; repositoryUri : str }.
Record page := { repositories : list repository }.

(** One entry of [authorizationData] and the response holding them. *)
Record authorization_data :=
  { authorizationToken : str; proxyEndpoint : str }.
Record auth_token_response :=
  { authorizationData : list authorization_data }.

(** A boto3 ECR client, seen through the two calls the program makes.
    The paginator is lazy: it yields [paginate_pages] and then either
    stops ([None]) or raises. *)
Record ecr_client := {
  paginate_pages : list page;
  paginate_error : option sdk_error;
  get_authorization_token : sdk_error + auth_token_response
}.

(** What [subprocess.run(cmd, capture_output=True, text=True)] meets: the
    command cannot be started, or it runs and exits. *)
Inductive run_answer : Type :=
| LaunchFailed (msg : str)
| Exited (returncode : Z) (stdout stderr : str).

(** A [Popen] object with [stdout=PIPE, stderr=STDOUT, text=True]:
    [unread] is the text of the pipe not read yet, as the text layer
    presents it (decoded, line ends as newlines), [exit_status] what the
    process exits with, [returncode] the attribute ([None] until [wait]). *)
Record process := {
  unread : str;
  exit_status : Z;
  returncode : option Z
}.

Record env := {
  boto3_client : str -> sdk_error + ecr_client;
  os_run : list str -> run_answer;
  os_popen : list str -> str + (str * Z)   (* failure, or (output, exit) *)
}.

(** ** Library functions the program calls *)

Definition map_inr {A B C} (f : B -> C) (r : A + B) : A + C :=
  match r with inl e => inl e | inr b => inr (f b) end.

(** *** base64.b64decode *)

(** The value of a base64 digit ([table_a2b_base64] of CPython). *)
Definition table_a2b_base64 (ch : N) : option N :=
  (if (65 <=? ch) && (ch <=? 90) then Some (ch - 65)              (* A-Z *)
   else if (97 <=? ch) && (ch <=? 122) then Some (ch - 97 + 26)   (* a-z *)
   else if (48 <=? ch) && (ch <=? 57) then Some (ch - 48 + 52)    (* 0-9 *)
   else if ch =? 43 then Some 62                                  (* + *)
   else if ch =? 47 then Some 63                                  (* / *)
   else None)%N.

Definition BASE64_PAD : N := 61.                                  (* = *)

(** [binascii.a2b_base64] of CPython (3.11 and later) in its default,
    non-strict mode: characters outside the alphabet are skipped, a
    complete pad sequence ends the input, an incomplete last quad is an
    error.  [quad_pos] counts the digits of the current quad, [leftchar]
    holds its bits not yet written, [pads] the pad characters seen since
    the last digit. *)
Fixpoint a2b_base64_loop (data : bytes) (quad_pos leftchar pads : N)
  : exn + bytes :=
  match data with
  | [] => if (quad_pos =? 0)%N then inr [] else inl BinasciiError
  | this_ch :: rest =>
      if (this_ch =? BASE64_PAD)%N then
        if (2 <=? quad_pos)%N then
          if (4 <=? quad_pos + (pads + 1))%N then inr []
          else a2b_base64_loop rest quad_pos leftchar (pads + 1)%N
        else a2b_base64_loop rest quad_pos leftchar pads
      else
        match table_a2b_base64 this_ch with
        | None => a2b_base64_loop rest quad_pos leftchar pads
        | Some v =>
            match quad_pos with
            | 0%N => a2b_base64_loop rest 1 v 0
            | 1%N =>
                map_inr
                  (cons (N.land (N.lor (N.shiftl leftchar 2) (N.shiftr v 4))
                           0xFF))
                  (a2b_base64_loop rest 2 (N.land v 0x0F) 0)
            | 2%N =>
                map_inr
                  (cons (N.land (N.lor (N.shiftl leftchar 4) (N.shiftr v 2))
                           0xFF))
                  (a2b_base64_loop rest 3 (N.land v 0x03) 0)
            | _ =>
                map_inr
                  (cons (N.land (N.lor (N.shiftl leftchar 6) v) 0xFF))
                  (a2b_base64_loop rest 0 0 0)
            end
        end
  end.

(** [base64.b64decode(s)] for a [str] argument: the string is encoded as
    ASCII first (a [ValueError] if it cannot be), then decoded. *)
Definition b64decode (s : str) : exn + bytes :=
  if forallb (fun c => c <? 128)%N s then a2b_base64_loop s 0 0 0
  else inl ValueError_NonAscii.

(** *** bytes.decode('utf-8') *)

Definition is_continuation (b : N) : bool :=
  ((0x80 <=? b) && (b <=? 0xBF))%N.

(** Strict UTF-8: no overlong form, no surrogate, nothing above U+10FFFF. *)
Fixpoint utf8_decode (b : bytes) : exn + str :=
  match b with
  | [] => inr []
  | b0 :: t =>
      if (b0 <? 0x80)%N then map_inr (cons b0) (utf8_decode t)
      else if (b0 <? 0xC2)%N then inl UnicodeDecodeError
      else if (b0 <? 0xE0)%N then
        match t with
        | b1 :: t1 =>
            if is_continuation b1 then
              map_inr (cons ((b0 - 0xC0) * 64 + (b1 - 0x80))%N)
                      (utf8_decode t1)
            else inl UnicodeDecodeError
        | _ => inl UnicodeDecodeError
        end
      else if (b0 <? 0xF0)%N then
        match t with
        | b1 :: b2 :: t2 =>
            let c := ((b0 - 0xE0) * 4096 + (b1 - 0x80) * 64 + (b2 - 0x80))%N in
            if is_continuation b1 && is_continuation b2
               && (0x800 <=? c)%N
               && negb ((0xD800 <=? c) && (c <=? 0xDFFF))%N
            then map_inr (cons c) (utf8_decode t2)
            else inl UnicodeDecodeError
        | _ => inl UnicodeDecodeError
        end
      else if (b0 <? 0xF5)%N then
        match t with
        | b1 :: b2 :: b3 :: t3 =>
            let c := ((b0 - 0xF0) * 262144 + (b1 - 0x80) * 4096
                      + (b2 - 0x80) * 64 + (b3 - 0x80))%N in
            if is_continuation b1 && is_continuation b2
               && is_continuation b3
               && (0x10000 <=? c)%N && (c <=? 0x10FFFF)%N
            then map_inr (cons c) (utf8_decode t3)
            else inl UnicodeDecodeError
        | _ => inl UnicodeDecodeError
        end
      else inl UnicodeDecodeError
  end.

(** *** The encoders: what a token is made with *)

(** The base64 digit of a value below 64. *)
Definition b64_digit (v : N) : N :=
  (if v <? 26 then v + 65
   else if v <? 52 then v - 26 + 97
   else if v <? 62 then v - 52 + 48
   else if v =? 62 then 43 else 47)%N.

(** [base64.b64encode]: three octets give four digits; a last group of one
    or two octets is padded with [=]. *)
Fixpoint b64encode (b : bytes) : str :=
  match b with
  | [] => []
  | [x] =>
      [b64_digit (x / 4); b64_digit (x mod 4 * 16); BASE64_PAD; BASE64_PAD]%N
  | [x; y] =>
      [b64_digit (x / 4); b64_digit (x mod 4 * 16 + y / 16);
       b64_digit (y mod 16 * 4); BASE64_PAD]%N
  | x :: y :: z :: rest =>
      (b64_digit (x / 4) :: b64_digit (x mod 4 * 16 + y / 16)
       :: b64_digit (y mod 16 * 4 + z / 64) :: b64_digit (z mod 64)
       :: b64encode rest)%N
  end.

(** A Unicode scalar value: a code point that is not a surrogate. *)
Definition is_scalar (c : N) : Prop :=
  (c < 0xD800 \/ 0xDFFF < c <= 0x10FFFF)%N.

(** The UTF-8 form of one scalar value, and [str.encode('utf-8')]. *)
Definition utf8_encode_char (c : N) : bytes :=
  (if c <? 0x80 then [c]
   else if c <? 0x800 then [0xC0 + c / 64; 0x80 + c mod 64]
   else if c <? 0x10000 then
     [0xE0 + c / 4096; 0x80 + c / 64 mod 64; 0x80 + c mod 64]
   else [0xF0 + c / 262144; 0x80 + c / 4096 mod 64;
         0x80 + c / 64 mod 64; 0x80 + c mod 64])%N.

Definition utf8_encode (s : str) : bytes := flat_map utf8_encode_char s.

(** *** subprocess *)

Module CompletedProcess.
Record t := { returncode : Z; stdout : str; stderr : str }.
End CompletedProcess.

(** Lifting the result of a library function or of an SDK call into a
    computation. *)
Definition lift {A} (r : exn + A) : M A :=
  match r with inl e => raise e | inr a => ret a end.

Definition lift_sdk {A} (r : sdk_error + A) : M A :=
  match r with inl e => raise (exn_of_sdk e) | inr a => ret a end.

(** [subprocess.run(cmd, capture_output=True, text=True, check=True)]:
    with [check=True] a non-zero exit raises [CalledProcessError]. *)
Definition subprocess_run (w : env) (cmd : list str)
  : M CompletedProcess.t :=
  emit (SubprocessRun cmd) ;;
  match os_run w cmd with
  | LaunchFailed msg => raise (OSError msg)
  | Exited rc out err =>
      if (rc =? 0)%Z
      then ret {| CompletedProcess.returncode := rc;
                  CompletedProcess.stdout := out;
                  CompletedProcess.stderr := err |}
      else raise (CalledProcessError rc cmd out err)
  end.

(** [subprocess.Popen(cmd, stdout=PIPE, stderr=STDOUT, text=True, ...)]. *)
Definition subprocess_Popen (w : env) (cmd : list str) : M process :=
  emit (SubprocessPopen cmd) ;;
  match os_popen w cmd with
  | inl msg => raise (OSError msg)
  | inr (out, status) =>
      ret {| unread := out; exit_status := status; returncode := None |}
  end.

(** The text up to and including the next newline (or up to the end), and
    what is left after it. *)
Fixpoint take_line (s : str) : str * str :=
  match s with
  | [] => ([], [])
  | c :: t =>
      if (c =? 10)%N then ([c], t)
      else let (l, r) := take_line t in (c :: l, r)
  end.

(** [process.stdout.readline()]: the empty string at end of file only. *)
Definition readline (p : process) : str * process :=
  let (line, r) := take_line (unread p) in
  (line, {| unread := r; exit_status := exit_status p;
            returncode := returncode p |}).

(** [process.wait()]. *)
Definition wait (p : process) : process :=
  {| unread := unread p; exit_status := exit_status p;
     returncode := Some (exit_status p) |}.

Definition inspect {A} (a : A) : {b : A | a = b} := exist _ a eq_refl.

(** [iter(process.stdout.readline, '')]: the lines [readline] returns until
    it returns the empty string, and the process as the reads leave it. *)
Equations? iter_readline (p : process) : list str * process
  by wf (List.length (unread p)) lt :=
iter_readline p with inspect (readline p) := {
  | exist _ ([], p') _ => ([], p')
  | exist _ (c :: l, p') H =>
      ((c :: l) :: fst (iter_readline p'), snd (iter_readline p')) }.
Proof.
  all: assert (shorter : forall s x k r,
                  take_line s = (x :: k, r) ->
                  (List.length r < List.length s)%nat)
    by (clear; intros s; induction s as [|y s IH]; simpl; intros x k r E;
        [ discriminate
        | destruct (y =? 10)%N;
          [ injection E as _ _ <-; lia
          | destruct (take_line s) as [[|x' k'] r'] eqn:E';
            [ destruct s as [|z s]; simpl in E';
              [ injection E as _ _ <-; injection E' as <-; simpl; lia
              | destruct (z =? 10)%N; [discriminate|];
                destruct (take_line s); discriminate ]
            | injection E as _ _ <-;
              specialize (IH _ _ _ eq_refl); simpl; lia ] ] ]).
  all: unfold readline in H;
    destruct (take_line (unread p)) as [line r] eqn:E;
    injection H as -> <-; simpl;
    eapply shorter; eauto.
Qed.

(** ** The program *)

(** [get_ecr_client(region_name)]. *)
Definition get_ecr_client (w : env) (region_name : str)
  : M (option ecr_client) :=
  try_except
    (c <- lift_sdk (boto3_client w region_name) ;; ret (Some c))
    (fun e =>
       match e with
       | NoCredentialsError =>
           Some (st_error (lit "AWS credentials not found. Please configure them using 'aws configure' or environment variables.") ;;
                 ret None)
       | _ =>
           Some (st_error_f (lit "Error creating ECR client: ") e [] ;;
                 ret None)
       end).

(** The body of [for repo in page['repositories']:
    repositories.append(repo['repositoryName'])]. *)
Definition append_page (repos : list str) (pg : page) : list str :=
  fold_left (fun acc repo => acc ++ [repositoryName repo])
            (repositories pg) repos.

(** [paginator.paginate()] consumed by the outer [for]: the pages are
    folded into [repositories]; an error of the paginator ends the loop. *)
Definition paginate_loop (c : ecr_client) : M (list str) :=
  let repos := fold_left append_page (paginate_pages c) [] in
  match paginate_error c with
  | None => ret repos
  | Some e => raise (exn_of_sdk e)
  end.

(** [get_ecr_repositories(ecr_client)]. *)
Definition get_ecr_repositories (c : ecr_client) : M (option (list str)) :=
  try_except
    (repos <- paginate_loop c ;; ret (Some repos))
    (fun e =>
       match e with
       | ClientError _ =>
           Some (st_error_f (lit "Error fetching ECR repositories: ") e
                            (lit ". Check your credentials and permissions.") ;;
                 ret None)
       | _ =>
           Some (st_error_f (lit "An unexpected error occurred: ") e [] ;;
                 ret None)
       end).

(** [seq[0]]. *)
Definition index0 {A} (l : list A) : M A :=
  match l with
  | x :: _ => ret x
  | [] => raise IndexError
  end.

(** [a, b = seq]. *)
Definition unpack2 {A} (l : list A) : M (A * A) :=
  match l with
  | [a; b] => ret (a, b)
  | _ => raise (ValueError_Unpack (List.length l))
  end.

(** f"{aws_account_id}.dkr.ecr.{region}.amazonaws.com" *)
Definition registry_host (aws_account_id region : str) : str :=
  aws_account_id ++ lit ".dkr.ecr." ++ region ++ lit ".amazonaws.com".

Definition login_command (username password registry : str) : list str :=
  [lit "docker"; lit "login";
   lit "--username"; username;
   lit "--password"; password;
   registry].

(** [ecr_login(ecr_client, aws_account_id, region)]. *)
Definition ecr_login (w : env) (c : ecr_client)
    (aws_account_id region : str) : M bool :=
  st_info (lit "Authenticating Docker with ECR...") ;;
  try_except
    (auth_token_response <- lift_sdk (get_authorization_token c) ;;
     auth_data <- index0 (authorizationData auth_token_response) ;;
     let token := authorizationToken auth_data in
     raw <- lift (b64decode token) ;;
     decoded_token <- lift (utf8_decode raw) ;;
     up <- unpack2 (split 58 decoded_token) ;;
     let (username, password) := up : str * str in
     let registry := registry_host aws_account_id region in
     let command := login_command username password registry in
     result <- subprocess_run w command ;;
     if (CompletedProcess.returncode result =? 0)%Z then
       st_success (lit "Docker login successful!") ;;
       ret true
     else
       st_error (lit "Docker login failed.") ;;
       st_code (CompletedProcess.stderr result) ;;
       ret false)
    (fun e =>
       match e with
       | CalledProcessError _ _ _ stderr =>
           Some (st_error (lit "Docker login failed.") ;;
                 st_code stderr ;;
                 ret false)
       | _ =>
           Some (st_error_f (lit "An error occurred during ECR login: ") e [] ;;
                 ret false)
       end).

(** [for line in iter(process.stdout.readline, ''): logs += line;
    log_container.code(logs, language='bash')]: the body, run on the lines
    in turn with [logs] as it stands. *)
Fixpoint for_lines (lines : list str) (logs : str) : M str :=
  match lines with
  | [] => ret logs
  | line :: rest =>
      let logs := logs ++ line in
      emit (LogCode logs) ;;
      for_lines rest logs
  end.

(** Lines 134-139: the output of [process] is read to its end and shown,
    then the process is waited for. *)
Definition drain (p : process) : M process :=
  emit StEmpty ;;
  let (lines, p) := iter_readline p in
  for_lines lines [] ;;
  ret (wait p).

(** [tag_and_push_image(local_image_tag, repository_uri, image_tag)]. *)
Definition tag_and_push_image (w : env)
    (local_image_tag repository_uri image_tag : str) : M bool :=
  let ecr_image_uri := repository_uri ++ lit ":" ++ image_tag in
  st_info (lit "Tagging local image '" ++ local_image_tag ++ lit "' as '"
           ++ ecr_image_uri ++ lit "'...") ;;
  tagged <-
    try_except
      (let tag_command :=
         [lit "docker"; lit "tag"; local_image_tag; ecr_image_uri] in
       subprocess_run w tag_command ;;
       st_success (lit "Image tagged successfully.") ;;
       ret true)
      (fun e =>
         match e with
         | CalledProcessError _ _ _ stderr =>
             Some (st_error (lit "Failed to tag Docker image. Make sure the local image exists.") ;;
                   st_code stderr ;;
                   ret false)            (* return False *)
         | _ => None
         end) ;;
  if negb tagged then ret false
  else
    st_info (lit "Pushing image to ECR repository: " ++ ecr_image_uri) ;;
    let push_command := [lit "docker"; lit "push"; ecr_image_uri] in
    process <-
      with_ (StSpinnerEnter
               (Text (lit "Pushing Docker image... This may take a while.")))
            StSpinnerExit
            (process <- subprocess_Popen w push_command ;;
             drain process) ;;
    if match returncode process with
       | Some rc => (rc =? 0)%Z
       | None => false
       end
    then
      st_success (lit "Image pushed successfully to ECR!") ;;
      ret true
    else
      st_error (lit "Failed to push image to ECR.") ;;
      ret false.

(** [all([a, b, c, d])] on strings. *)
Definition all (l : list str) : bool := forallb truthy l.

(** The body of [if st.button("Push to ECR"):] (lines 195-206), run with
    the widgets' values: the two text inputs of the first section, the
    selected repository, and the two text inputs of the second. *)
Definition push_to_ecr (w : env) (c : ecr_client)
    (aws_account_id aws_region selected_repo local_image new_image_tag : str)
  : M unit :=
  let account_id := strip aws_account_id in
  let region := strip aws_region in
  if all [selected_repo; local_image; new_image_tag; account_id] then
    login_success <- ecr_login w c account_id region ;;
    if (login_success : bool) then
      let repository_uri :=
        account_id ++ lit ".dkr.ecr." ++ region ++ lit ".amazonaws.com/"
        ++ selected_repo in
      tag_and_push_image w (strip local_image) repository_uri
                         (strip new_image_tag) ;;
      ret tt
    else ret tt
  else
    st_warning (lit "Please fill in all the repository and image details.").

(** The two entries the program keeps in [st.session_state].  An entry is
    [None] while its key is absent; a present entry holds what the helper
    returned, which is itself [None] after a failure. *)
Record session_state := {
  ecr_client_entry : option (option ecr_client);
  repos_entry : option (option (list str))
}.

(** The body of [if st.button("Connect to AWS"):] (lines 172-182), run
    with the two text inputs and the session as it stands; it returns the
    session as it leaves it. *)
Definition connect_to_aws (w : env) (aws_region aws_account_id : str)
    (session : session_state) : M session_state :=
  let region := strip aws_region in
  if all [region; strip aws_account_id] then
    client <- get_ecr_client w region ;;
    let session :=
      {| ecr_client_entry := Some client;
         repos_entry := repos_entry session |} in
    match client with
    | Some c =>
        repos <-
          with_ (StSpinnerEnter (Text (lit "Fetching ECR repositories...")))
                StSpinnerExit
                (get_ecr_repositories c) ;;
        let session :=
          {| ecr_client_entry := ecr_client_entry session;
             repos_entry := Some repos |} in
        match repos with
        | Some _ =>
            st_success
              (lit "Successfully connected to AWS and fetched repositories.") ;;
            ret session
        | None => ret session
        end
    | None => ret session
    end
  else
    st_warning (lit "Please provide your AWS Region and Account ID.") ;;
    ret session.

(** Lines 186-191: what the second section does with the session.  It
    returns the options of the repository select box when the form is
    shown, [None] when it is not. *)
Definition repository_section (session : session_state)
  : M (option (list str)) :=
  match repos_entry session with
  | Some (Some repos) =>
      match repos with
      | [] =>
          st_warning (lit "No ECR repositories found in this region. Please create one in the AWS console.") ;;
          ret None
      | _ :: _ => ret (Some repos)
      end
  | _ => ret None
  end.

(** ** Notions the properties are stated with *)

(** The commands a run handed to the engine, in order. *)
Fixpoint engine_commands (t : list event) : list (list str) :=
  match t with
  | [] => []
  | SubprocessRun cmd :: t' => cmd :: engine_commands t'
  | SubprocessPopen cmd :: t' => cmd :: engine_commands t'
  | _ :: t' => engine_commands t'
  end.

(** The names of all repositories of all pages, page after page. *)
Definition names_of_pages (pages : list page) : list str :=
  flat_map (fun pg => List.map repositoryName (repositories pg)) pages.

(** The username and password [ecr_login] gets out of the response of
    [get_authorization_token], or the exception that stops it. *)
Definition decode_credentials (c : ecr_client) : exn + (str * str) :=
  match get_authorization_token c with
  | inl e => inl (exn_of_sdk e)
  | inr resp =>
      match authorizationData resp with
      | [] => inl IndexError
      | auth_data :: _ =>
          match b64decode (authorizationToken auth_data) with
          | inl e => inl e
          | inr raw =>
              match utf8_decode raw with
              | inl e => inl e
              | inr decoded_token =>
                  match split 58 decoded_token with
                  | [username; password] => inr (username, password)
                  | parts => inl (ValueError_Unpack (List.length parts))
                  end
              end
          end
      end
  end.

(** The lines of a text, cut after each newline, in the order of the
    text; [cur] is the line being collected.  A last line without a
    newline counts when it is not empty. *)
Fixpoint lines_from (cur : str) (s : str) : list str :=
  match s with
  | [] => match cur with [] => [] | _ => [cur] end
  | c :: t =>
      if (c =? 10)%N then (cur ++ [c]) :: lines_from [] t
      else lines_from (cur ++ [c]) t
  end.

(** The lines a process emitted, given all the text it wrote. *)
Definition emitted_lines (out : str) : list str := lines_from [] out.

(** What the log widget shows after each line: all lines so far. *)
Fixpoint snapshots (logs : str) (lines : list str) : list str :=
  match lines with
  | [] => []
  | line :: rest => (logs ++ line) :: snapshots (logs ++ line) rest
  end.


(** What the log widget was given, update after update. *)
Fixpoint log_updates (t : list event) : list str :=
  match t with
  | [] => []
  | LogCode logs :: t' => logs :: log_updates t'
  | _ :: t' => log_updates t'
  end.

(** A text of whitespace only (the empty text included). *)
Definition blank (s : str) : Prop := Forall (fun c => isspace c = true) s.

(** The sessions the connect button can produce, from the empty session
    of a fresh page, whatever the world answers at each click. *)
Inductive reachable : session_state -> Prop :=
| reachable_fresh :
    reachable {| ecr_client_entry := None; repos_entry := None |}
| reachable_connect (w : env) (aws_region aws_account_id : str)
    (session session' : session_state) :
    reachable session ->
    result (connect_to_aws w aws_region aws_account_id session)
    = Return session' ->
    reachable session'.

(** ** What the program writes, by name *)

Definition authenticating : event :=
  StInfo (Text (lit "Authenticating Docker with ECR...")).
Definition login_failed : event :=
  StError (Text (lit "Docker login failed.")).
Definition login_error (e : exn) : event :=
  StError (TextExn (lit "An error occurred during ECR login: ") e []).

Definition tagging (local uri : str) : event :=
  StInfo (Text (lit "Tagging local image '" ++ local ++ lit "' as '"
                ++ uri ++ lit "'...")).
Definition tag_succeeded : event :=
  StSuccess (Text (lit "Image tagged successfully.")).
Definition tag_failed : event :=
  StError (Text (lit "Failed to tag Docker image. Make sure the local image exists.")).
Definition push_failed : event :=
  StError (Text (lit "Failed to push image to ECR.")).
Definition pushed : event :=
  StSuccess (Text (lit "Image pushed successfully to ECR!")).

(** What [tag_and_push_image] writes from the success of the tag on, when
    the push process could be started, wrote [out] and exited with
    [status]. *)
Definition push_events (uri out : str) (status : Z) : list event :=
  [tag_succeeded;
   StInfo (Text (lit "Pushing image to ECR repository: " ++ uri));
   StSpinnerEnter
     (Text (lit "Pushing Docker image... This may take a while."));
   SubprocessPopen [lit "docker"; lit "push"; uri];
   StEmpty]
  ++ List.map LogCode (snapshots [] (emitted_lines out))
  ++ [StSpinnerExit; if (status =? 0)%Z then pushed else push_failed].

Definition fill_in_details : event :=
  StWarning (Text (lit "Please fill in all the repository and image details.")).
Definition provide_region_and_account : event :=
  StWarning (Text (lit "Please provide your AWS Region and Account ID.")).
Definition fetching : event :=
  StSpinnerEnter (Text (lit "Fetching ECR repositories...")).
Definition connected : event :=
  StSuccess
    (Text (lit "Successfully connected to AWS and fetched repositories.")).

(** What [get_ecr_client] shows for an error of [boto3.client]. *)
Definition client_error (e : sdk_error) : event :=
  match e with
  | SdkNoCredentials =>
      StError (Text (lit "AWS credentials not found. Please configure them using 'aws configure' or environment variables."))
  | _ => StError (TextExn (lit "Error creating ECR client: ")
                          (exn_of_sdk e) [])
  end.

(** What [get_ecr_repositories] shows for an error of the paginator. *)
Definition listing_error (e : sdk_error) : event :=
  match e with
  | SdkClientError msg =>
      StError (TextExn (lit "Error fetching ECR repositories: ")
                       (ClientError msg)
                       (lit ". Check your credentials and permissions."))
  | _ => StError (TextExn (lit "An unexpected error occurred: ")
                          (exn_of_sdk e) [])
  end.
(** ** Example worlds *)

(** The token [base64("user:pass:with:colons")] and a client whose
    [get_authorization_token] answers with it. *)
Definition colon_token : str := lit "dXNlcjpwYXNzOndpdGg6Y29sb25z".

Definition colon_client : ecr_client :=
  {| paginate_pages := []; paginate_error := None;
     get_authorization_token :=
       inr {| authorizationData :=
                [ {| authorizationToken := colon_token;
                     proxyEndpoint :=
                       lit "https://123456789012.dkr.ecr.us-east-1.amazonaws.com" |} ] |} |}.

(** A client that answers with the token [base64("AWS:secret")], and with
    two pages of repositories. *)
Definition aws_token : str := lit "QVdTOnNlY3JldA==".

Definition aws_client : ecr_client :=
  {| paginate_pages :=
       [ {| repositories :=
              [ {| repositoryName := lit "my-app";
                   repositoryUri :=
                     lit "123456789012.dkr.ecr.us-east-1.amazonaws.com/my-app" |} ] |};
         {| repositories := [] |} ];
     paginate_error := None;
     get_authorization_token :=
       inr {| authorizationData :=
                [ {| authorizationToken := aws_token;
                     proxyEndpoint :=
                       lit "https://123456789012.dkr.ecr.us-east-1.amazonaws.com" |} ] |} |}.

(** A machine whose engine answers [login] to [docker login ...], [tag] to
    any other command run to its end, and [push] to a command started
    with [Popen]. *)
Definition machine (login tag : run_answer) (push : str + (str * Z)) : env :=
  {| boto3_client := fun _ => inr aws_client;
     os_run := fun cmd =>
       match cmd with
       | _ :: sub :: _ => if str_eqb sub (lit "login") then login else tag
       | _ => tag
       end;
     os_popen := fun _ => push |}.

Definition ok : run_answer := Exited 0 [] [].


(** * Properties *)

(** ** Listing repositories *)

Section Listing.

Lemma append_page_app (repos : list str) (pg : page) :
  append_page repos pg
  = repos ++ List.map repositoryName (repositories pg).
Proof.
  unfold append_page.
  generalize (repositories pg) as rs. intros rs. revert repos.
  induction rs as [|r rs IH]; intros repos; simpl.
  - now rewrite app_nil_r.
  - rewrite IH, <- app_assoc. reflexivity.
Qed.

Lemma fold_pages_app (pages : list page) (acc : list str) :
  fold_left append_page pages acc = acc ++ names_of_pages pages.
Proof.
  revert acc. induction pages as [|pg pages IH]; intros acc; simpl.
  - now rewrite app_nil_r.
  - rewrite IH, append_page_app, <- app_assoc. reflexivity.
Qed.

(** C4. When the paginator yields [pages] and then stops,
    [get_ecr_repositories] writes nothing on the page and returns the
    repository names of all pages, page after page, each page in its
    own order; with no page at all it returns the empty list, not
    [None]. *)
Theorem get_ecr_repositories_all_pages :
  forall (pages : list page) (tok : sdk_error + auth_token_response),
    let c := {| paginate_pages := pages; paginate_error := None;
                get_authorization_token := tok |} in
    let none := {| paginate_pages := []; paginate_error := None;
                   get_authorization_token := tok |} in
    get_ecr_repositories c = ([], Return (Some (names_of_pages pages)))
    /\ get_ecr_repositories none = ([], Return (Some [])).
Proof.
  intros pages tok c none. split; [|reflexivity].
  unfold get_ecr_repositories, paginate_loop. simpl.
  rewrite fold_pages_app. reflexivity.
Qed.

End Listing.

(** ** Decoding *)

(** Division and remainder by constants, for [lia]. *)
Ltac Zify.zify_post_hook ::= Z.to_euclidean_division_equations.


Ltac bool_to_prop H :=
  rewrite ?andb_true_iff, ?andb_false_iff, ?negb_true_iff, ?negb_false_iff,
    ?orb_true_iff, ?orb_false_iff in H;
  rewrite ?andb_true_iff, ?andb_false_iff,
    ?N.ltb_lt, ?N.ltb_ge, ?N.leb_le, ?N.leb_gt, ?N.eqb_eq, ?N.eqb_neq in H.

Ltac split_if :=
  match goal with
  | |- context [if ?b then _ else _] =>
      let E := fresh "E" in
      destruct b eqn:E; bool_to_prop E
  end.

Lemma utf8_decode_encode_char (c : N) (rest : bytes) :
  is_scalar c ->
  utf8_decode (utf8_encode_char c ++ rest)
  = map_inr (cons c) (utf8_decode rest).
Proof.
  unfold is_scalar, utf8_encode_char, is_continuation. intros Hc.
  destruct (N.ltb_spec c 0x80); [|destruct (N.ltb_spec c 0x800);
    [|destruct (N.ltb_spec c 0x10000)]];
    cbn [app utf8_decode]; unfold is_continuation;
    repeat (split_if; try lia);
    f_equal; f_equal; lia.
Qed.

Lemma utf8_decode_encode (s : str) :
  Forall is_scalar s -> utf8_decode (utf8_encode s) = inr s.
Proof.
  induction 1 as [|c s Hc Hs IH]; [reflexivity|].
  unfold utf8_encode in *. cbn [flat_map].
  rewrite utf8_decode_encode_char, IH by assumption. reflexivity.
Qed.

Lemma utf8_encode_octets (s : str) :
  Forall is_scalar s -> Forall (fun b => b < 256)%N (utf8_encode s).
Proof.
  induction 1 as [|c s Hc Hs IH]; [constructor|].
  unfold utf8_encode in *. cbn [flat_map]. apply Forall_app. split; [|exact IH].
  unfold utf8_encode_char, is_scalar in *.
  repeat split_if; repeat constructor; cbv beta; lia.
Qed.

Lemma b64_digit_value (v : N) :
  (v < 64)%N -> table_a2b_base64 (b64_digit v) = Some v.
Proof.
  intros Hv. unfold b64_digit. repeat (split_if; try lia);
    unfold table_a2b_base64; repeat (split_if; try lia); f_equal; lia.
Qed.

Lemma b64_digit_not_pad (v : N) :
  (v < 64)%N -> (b64_digit v =? BASE64_PAD)%N = false.
Proof.
  intros Hv. apply N.eqb_neq. unfold b64_digit, BASE64_PAD.
  repeat (split_if; try lia).
Qed.

Lemma b64_digit_ascii (v : N) : (b64_digit v <? 128)%N = true.
Proof.
  apply N.ltb_lt. unfold b64_digit. repeat (split_if; try lia).
Qed.

(** A check on all numbers below a bound, by enumeration. *)
Lemma forall_below (n : nat) (f : N -> bool) :
  forallb f (List.map N.of_nat (seq 0 n)) = true ->
  forall x, (x < N.of_nat n)%N -> f x = true.
Proof.
  intros H x Hx. rewrite forallb_forall in H. apply H.
  apply in_map_iff. exists (N.to_nat x). split; [apply N2Nat.id|].
  apply in_seq. lia.
Qed.

Lemma quad_byte1 (x y : N) :
  (x < 64 -> y < 64 ->
   N.land (N.lor (N.shiftl x 2) (N.shiftr y 4)) 0xFF = x * 4 mod 256 + y / 16)%N.
Proof.
  intros Hx Hy. apply N.eqb_eq.
  revert y Hy. apply (forall_below 64). revert x Hx. apply (forall_below 64).
  vm_compute. reflexivity.
Qed.

Lemma quad_byte2 (x y : N) :
  (x < 64 -> y < 64 ->
   N.land (N.lor (N.shiftl (N.land x 0x0F) 4) (N.shiftr y 2)) 0xFF
   = x mod 16 * 16 + y / 4)%N.
Proof.
  intros Hx Hy. apply N.eqb_eq.
  revert y Hy. apply (forall_below 64). revert x Hx. apply (forall_below 64).
  vm_compute. reflexivity.
Qed.

Lemma quad_byte3 (x y : N) :
  (x < 64 -> y < 64 ->
   N.land (N.lor (N.shiftl (N.land x 0x03) 6) y) 0xFF = x mod 4 * 64 + y)%N.
Proof.
  intros Hx Hy. apply N.eqb_eq.
  revert y Hy. apply (forall_below 64). revert x Hx. apply (forall_below 64).
  vm_compute. reflexivity.
Qed.

(** One digit read by the decoder. *)
Lemma a2b_base64_loop_digit (v : N) (rest : bytes) (quad_pos leftchar pads : N) :
  (v < 64)%N ->
  a2b_base64_loop (b64_digit v :: rest) quad_pos leftchar pads =
  match quad_pos with
  | 0%N => a2b_base64_loop rest 1 v 0
  | 1%N =>
      map_inr
        (cons (N.land (N.lor (N.shiftl leftchar 2) (N.shiftr v 4)) 0xFF))
        (a2b_base64_loop rest 2 (N.land v 0x0F) 0)
  | 2%N =>
      map_inr
        (cons (N.land (N.lor (N.shiftl leftchar 4) (N.shiftr v 2)) 0xFF))
        (a2b_base64_loop rest 3 (N.land v 0x03) 0)
  | _ =>
      map_inr
        (cons (N.land (N.lor (N.shiftl leftchar 6) v) 0xFF))
        (a2b_base64_loop rest 0 0 0)
  end.
Proof.
  intros Hv. cbn [a2b_base64_loop].
  rewrite b64_digit_not_pad, b64_digit_value by assumption. reflexivity.
Qed.

Lemma a2b_base64_b64encode_aux (n : nat) :
  forall b : bytes,
    (List.length b <= n)%nat ->
    Forall (fun x => x < 256)%N b ->
    a2b_base64_loop (b64encode b) 0 0 0 = inr b.
Proof.
  induction n as [|n IH]; intros b Hn Hb.
  { destruct b; [reflexivity|simpl in Hn; lia]. }
  destruct b as [|x [|y [|z rest]]]; [reflexivity| | |].
  - apply Forall_cons_iff in Hb as [Hx _].
    cbn [b64encode].
    rewrite !a2b_base64_loop_digit by lia.
    rewrite quad_byte1 by lia.
    cbn. f_equal. f_equal. lia.
  - apply Forall_cons_iff in Hb as [Hx Hb].
    apply Forall_cons_iff in Hb as [Hy _].
    cbn [b64encode].
    rewrite !a2b_base64_loop_digit by lia.
    rewrite quad_byte1, quad_byte2 by lia.
    cbn. f_equal. f_equal; [lia|]. f_equal. lia.
  - apply Forall_cons_iff in Hb as [Hx Hb].
    apply Forall_cons_iff in Hb as [Hy Hb].
    apply Forall_cons_iff in Hb as [Hz Hb].
    cbn [b64encode].
    rewrite !a2b_base64_loop_digit by lia.
    rewrite quad_byte1, quad_byte2, quad_byte3 by lia.
    rewrite IH by (auto; simpl in Hn; lia).
    cbn [map_inr]. f_equal. f_equal; [lia|]. f_equal; [lia|]. f_equal. lia.
Qed.

Lemma b64encode_ascii (b : bytes) :
  forallb (fun c => c <? 128)%N (b64encode b) = true.
Proof.
  assert (G : forall n (b : bytes), (List.length b <= n)%nat ->
                forallb (fun c => c <? 128)%N (b64encode b) = true).
  { induction n as [|n IH]; intros l Hn.
    - destruct l; [reflexivity|simpl in Hn; lia].
    - destruct l as [|x [|y [|z rest]]]; cbn [b64encode forallb];
        rewrite ?b64_digit_ascii; try reflexivity.
      apply IH. simpl in Hn. lia. }
  apply (G (List.length b)). lia.
Qed.

(** Decoding what was encoded gives the octets back. *)
Lemma b64decode_b64encode (b : bytes) :
  Forall (fun x => x < 256)%N b -> b64decode (b64encode b) = inr b.
Proof.
  intros Hb. unfold b64decode. rewrite b64encode_ascii.
  apply (a2b_base64_b64encode_aux (n := List.length b)); auto.
Qed.

Lemma map_inr_inl {A B C} (f : B -> C) (r : A + B) e :
  map_inr f r = inl e -> r = inl e.
Proof. destruct r; simpl; congruence. Qed.

Lemma a2b_base64_loop_error data :
  forall q lc pads e,
    a2b_base64_loop data q lc pads = inl e -> e = BinasciiError.
Proof.
  induction data as [|ch t IH]; intros q lc pads e; simpl.
  - destruct (q =? 0)%N; congruence.
  - destruct (ch =? BASE64_PAD)%N.
    + destruct (2 <=? q)%N; [|apply IH].
      destruct (4 <=? q + (pads + 1))%N; [congruence|apply IH].
    + destruct (table_a2b_base64 ch) as [v|]; [|apply IH].
      destruct q as [|[[]|[]|]]; try apply IH;
        intros H; apply map_inr_inl in H; revert H; apply IH.
Qed.

Lemma utf8_decode_error_aux n :
  forall b, (List.length b <= n)%nat ->
    forall e, utf8_decode b = inl e -> e = UnicodeDecodeError.
Proof.
  induction n as [|n IH]; intros b Hb e.
  - destruct b; simpl in *; [congruence|lia].
  - destruct b as [|b0 t]; simpl; [congruence|].
    simpl in Hb.
    destruct (b0 <? 128)%N.
    { intros H; apply map_inr_inl in H; revert H; apply IH; lia. }
    destruct (b0 <? 194)%N; [congruence|].
    destruct (b0 <? 224)%N.
    { destruct t as [|b1 t1]; [congruence|].
      destruct (is_continuation b1); [|congruence].
      intros H; apply map_inr_inl in H; revert H; apply IH; simpl in Hb; lia. }
    destruct (b0 <? 240)%N.
    { destruct t as [|b1 [|b2 t2]]; try congruence.
      match goal with |- context [if ?b then _ else _] => destruct b end;
        [|congruence].
      intros H; apply map_inr_inl in H; revert H; apply IH; simpl in Hb; lia. }
    destruct (b0 <? 245)%N; [|congruence].
    destruct t as [|b1 [|b2 [|b3 t3]]]; try congruence.
    match goal with |- context [if ?b then _ else _] => destruct b end;
      [|congruence].
    intros H; apply map_inr_inl in H; revert H; apply IH; simpl in Hb; lia.
Qed.

Lemma b64decode_error s e :
  b64decode s = inl e -> e = ValueError_NonAscii \/ e = BinasciiError.
Proof.
  unfold b64decode. destruct (forallb _ s).
  - intros H. right. eapply a2b_base64_loop_error; eauto.
  - intros H. left. congruence.
Qed.

Lemma utf8_decode_error b e :
  utf8_decode b = inl e -> e = UnicodeDecodeError.
Proof. apply (utf8_decode_error_aux (n := List.length b)). lia. Qed.

Section Login.

Variable w : env.

(** [ecr_login], path by path. *)
Lemma ecr_login_cases (c : ecr_client) (aws_account_id region : str) :
  ecr_login w c aws_account_id region =
  match decode_credentials c with
  | inl e => ([authenticating; login_error e], Return false)
  | inr (username, password) =>
      let cmd := login_command username password
                   (registry_host aws_account_id region) in
      match os_run w cmd with
      | LaunchFailed msg =>
          ([authenticating; SubprocessRun cmd; login_error (OSError msg)],
           Return false)
      | Exited rc out err =>
          if (rc =? 0)%Z then
            ([authenticating; SubprocessRun cmd;
              StSuccess (Text (lit "Docker login successful!"))],
             Return true)
          else
            ([authenticating; SubprocessRun cmd; login_failed; StCode err],
             Return false)
      end
  end.
Proof.
  unfold ecr_login, decode_credentials.
  destruct (get_authorization_token c) as [e|resp]; simpl.
  { destruct e; reflexivity. }
  destruct (authorizationData resp) as [|auth_data rest]; simpl.
  { reflexivity. }
  destruct (b64decode (authorizationToken auth_data)) as [e|raw] eqn:B;
    simpl.
  { destruct (b64decode_error _ B) as [-> | ->]; reflexivity. }
  destruct (utf8_decode raw) as [e|decoded_token] eqn:U; simpl.
  { rewrite (utf8_decode_error _ U). reflexivity. }
  destruct (split 58 decoded_token) as [|a [|b [|x l]]]; simpl;
    try reflexivity.
  unfold subprocess_run. simpl.
  destruct (os_run w _) as [msg|rc out err]; simpl; [reflexivity|].
  destruct (rc =? 0)%Z eqn:R; simpl; [|reflexivity].
  rewrite R. reflexivity.
Qed.

End Login.

Section Draining.

Lemma take_line_nil s r : take_line s = ([], r) -> s = [] /\ r = [].
Proof.
  destruct s as [|c t]; simpl.
  - intros H. injection H as <-. auto.
  - destruct (c =? 10)%N; [discriminate|].
    destruct (take_line t); discriminate.
Qed.

Lemma take_line_shorter s :
  forall c l r, take_line s = (c :: l, r) ->
    (List.length r < List.length s)%nat.
Proof.
  induction s as [|y s IH]; simpl; intros c l r E; [discriminate|].
  destruct (y =? 10)%N.
  - injection E as _ _ <-. lia.
  - destruct (take_line s) as [[|c' l'] r'] eqn:T.
    + apply take_line_nil in T as [-> ->].
      injection E as _ _ <-. simpl. lia.
    + injection E as _ _ <-. specialize (IH _ _ _ eq_refl). lia.
Qed.

Lemma lines_from_take_line s :
  forall cur l r, s <> [] -> take_line s = (l, r) ->
    lines_from cur s = (cur ++ l) :: lines_from [] r.
Proof.
  induction s as [|c t IH]; intros cur l r Hs E; [congruence|].
  simpl in *. destruct (c =? 10)%N.
  - injection E as <- <-. reflexivity.
  - destruct (take_line t) as [l' r'] eqn:T. injection E as <- <-.
    destruct t as [|c' t'].
    + simpl in T. injection T as <- <-. simpl.
      destruct (cur ++ [c]) eqn:A; [|reflexivity].
      destruct cur; discriminate.
    + rewrite (IH (cur ++ [c]) l' r'); [|discriminate|reflexivity].
      rewrite <- app_assoc. reflexivity.
Qed.

Lemma iter_readline_step p :
  iter_readline p =
  match readline p with
  | ([], p') => ([], p')
  | (line, p') => (line :: fst (iter_readline p'), snd (iter_readline p'))
  end.
Proof.
  funelim (iter_readline p).
  all: match goal with E : readline _ = _ |- _ => rewrite E end;
    reflexivity.
Qed.

(** The loop reads exactly the emitted lines and leaves nothing unread. *)
Lemma iter_readline_lines_aux n :
  forall p, (List.length (unread p) <= n)%nat ->
    iter_readline p
    = (emitted_lines (unread p),
       {| unread := []; exit_status := exit_status p;
          returncode := returncode p |}).
Proof.
  induction n as [|n IH]; intros p Hn; rewrite iter_readline_step;
    unfold readline, emitted_lines;
    destruct (take_line (unread p)) as [[|c l] r] eqn:T.
  - apply take_line_nil in T as [-> ->]. reflexivity.
  - destruct (unread p); [discriminate|simpl in Hn; lia].
  - apply take_line_nil in T as [-> ->]. reflexivity.
  - assert (Hs : unread p <> []) by (intros E; rewrite E in T; discriminate).
    rewrite (lines_from_take_line [] Hs T). simpl.
    assert (Hr : (List.length r <= n)%nat).
    { pose proof (take_line_shorter _ T). lia. }
    rewrite IH by exact Hr. reflexivity.
Qed.

Lemma iter_readline_lines p :
  iter_readline p
  = (emitted_lines (unread p),
     {| unread := []; exit_status := exit_status p;
        returncode := returncode p |}).
Proof. apply (iter_readline_lines_aux (n := List.length (unread p))). lia. Qed.

(** Cutting into lines loses nothing and moves nothing. *)
Lemma concat_lines_from s : forall cur, List.concat (lines_from cur s) = cur ++ s.
Proof.
  induction s as [|c t IH]; intros cur; simpl.
  - destruct cur; simpl; [reflexivity|].
    now rewrite !app_nil_r.
  - destruct (c =? 10)%N; simpl.
    + rewrite IH. simpl. rewrite <- app_assoc. reflexivity.
    + rewrite IH, <- app_assoc. reflexivity.
Qed.

Lemma for_lines_snapshots lines :
  forall logs,
    for_lines lines logs
    = (List.map LogCode (snapshots logs lines),
       Return (logs ++ List.concat lines)).
Proof.
  induction lines as [|line rest IH]; intros logs; simpl.
  - rewrite app_nil_r. reflexivity.
  - unfold bind, emit. rewrite IH. simpl.
    rewrite <- app_assoc. reflexivity.
Qed.

(** [drain], in one step. *)
Lemma drain_cases p :
  drain p
  = (StEmpty :: List.map LogCode (snapshots [] (emitted_lines (unread p))),
     Return {| unread := []; exit_status := exit_status p;
               returncode := Some (exit_status p) |}).
Proof.
  unfold drain. rewrite iter_readline_lines.
  unfold bind, emit. rewrite for_lines_snapshots. simpl.
  rewrite app_nil_r. reflexivity.
Qed.

End Draining.

(** ** Tagging and pushing *)

Section Publishing.

Variable w : env.
Variables local_image_tag repository_uri image_tag : str.

Let ecr_image_uri : str := repository_uri ++ lit ":" ++ image_tag.
Let tag_command : list str :=
  [lit "docker"; lit "tag"; local_image_tag; ecr_image_uri].
Let push_command : list str := [lit "docker"; lit "push"; ecr_image_uri].

(** [tag_and_push_image], path by path. *)
Lemma tag_and_push_image_cases :
  tag_and_push_image w local_image_tag repository_uri image_tag =
  match os_run w tag_command with
  | LaunchFailed msg =>
      ([tagging local_image_tag ecr_image_uri; SubprocessRun tag_command],
       Raise (OSError msg))
  | Exited rc out err =>
      if (rc =? 0)%Z then
        match os_popen w push_command with
        | inl msg =>
            ([tagging local_image_tag ecr_image_uri;
              SubprocessRun tag_command;
              tag_succeeded;
              StInfo (Text (lit "Pushing image to ECR repository: "
                            ++ ecr_image_uri));
              StSpinnerEnter
                (Text (lit "Pushing Docker image... This may take a while."));
              SubprocessPopen push_command;
              StSpinnerExit],
             Raise (OSError msg))
        | inr (output, status) =>
            (tagging local_image_tag ecr_image_uri
             :: SubprocessRun tag_command
             :: push_events ecr_image_uri output status,
             Return (status =? 0)%Z)
        end
      else
        ([tagging local_image_tag ecr_image_uri; SubprocessRun tag_command;
          tag_failed; StCode err],
         Return false)
  end.
Proof.
  unfold tag_and_push_image, subprocess_run, subprocess_Popen.
  unfold tag_command, push_command, ecr_image_uri.
  destruct (os_run w _) as [msg|rc out err]; simpl.
  { reflexivity. }
  destruct (rc =? 0)%Z; simpl; [|reflexivity].
  destruct (os_popen w _) as [msg|[output status]]; simpl.
  { reflexivity. }
  rewrite drain_cases. cbn [unread exit_status returncode fst snd].
  unfold push_events, with_, bind.
  destruct (status =? 0)%Z eqn:S0; simpl; rewrite S0; simpl;
    rewrite <- (app_assoc (List.map LogCode _)); reflexivity.
Qed.

End Publishing.

(** ** C8 and C1: the credential *)

Section Credential.

Variable w : env.


(** [split] yields one field more than there are separators. *)
Lemma split_length (sep : N) (s : str) :
  List.length (split sep s) = S (count_occ N.eq_dec s sep).
Proof.
  induction s as [|c t IH]; simpl; [reflexivity|].
  destruct (N.eqb_spec c sep) as [->|Hne].
  - destruct (N.eq_dec sep sep); [|congruence]. simpl. now rewrite IH.
  - destruct (N.eq_dec c sep); [congruence|].
    destruct (split sep t); simpl in *; [discriminate|exact IH].
Qed.

Lemma split_no_sep (sep : N) (s : str) :
  ~ In sep s -> split sep s = [s].
Proof.
  induction s as [|c t IH]; simpl; intros H; [reflexivity|].
  destruct (N.eqb_spec c sep) as [->|Hne]; [tauto|].
  rewrite IH by tauto. reflexivity.
Qed.

Lemma split_first (sep : N) (u rest : str) :
  ~ In sep u -> split sep (u ++ sep :: rest) = u :: split sep rest.
Proof.
  induction u as [|c t IH]; simpl; intros H.
  - now rewrite N.eqb_refl.
  - destruct (N.eqb_spec c sep) as [->|Hne]; [tauto|].
    rewrite IH by tauto. reflexivity.
Qed.

(** A decoded token [username:password] without a colon in either part
    gives that username and that password to [docker login]. *)
Lemma ecr_login_plain_password (c : ecr_client) (entry : authorization_data)
      (others : list authorization_data) (raw : bytes)
      (username password aws_account_id region : str) :
  get_authorization_token c
    = inr {| authorizationData := entry :: others |} ->
  b64decode (authorizationToken entry) = inr raw ->
  utf8_decode raw = inr (username ++ lit ":" ++ password) ->
  ~ In 58%N username -> ~ In 58%N password ->
  decode_credentials c = inr (username, password)
  /\ engine_commands (events (ecr_login w c aws_account_id region))
     = [login_command username password
          (registry_host aws_account_id region)].
Proof.
  intros G B U Hu Hp.
  assert (D : decode_credentials c = inr (username, password)).
  { unfold decode_credentials. rewrite G. simpl. rewrite B, U.
    change (lit ":" ++ password) with (58%N :: password).
    rewrite split_first, split_no_sep by assumption. reflexivity. }
  split; [exact D|].
  rewrite ecr_login_cases, D. simpl.
  destruct (os_run w _) as [msg|rc out err]; [reflexivity|].
  destruct (rc =? 0)%Z; reflexivity.
Qed.

(** A decoded token whose password holds a colon stops [ecr_login]: the
    unpacking of more than two fields raises, the catch-all clause
    reports it, and no command is run. *)
Lemma ecr_login_colon_in_password (c : ecr_client)
      (entry : authorization_data) (others : list authorization_data)
      (raw : bytes) (username password aws_account_id region : str) :
  get_authorization_token c
    = inr {| authorizationData := entry :: others |} ->
  b64decode (authorizationToken entry) = inr raw ->
  utf8_decode raw = inr (username ++ lit ":" ++ password) ->
  In 58%N password ->
  exists n, (2 < n)%nat
    /\ ecr_login w c aws_account_id region
       = ([authenticating; login_error (ValueError_Unpack n)],
          Return false).
Proof.
  intros G B U Hp.
  exists (List.length (split 58 (username ++ lit ":" ++ password))).
  assert (L : (2 < List.length
                     (split 58 (username ++ lit ":" ++ password)))%nat).
  { rewrite split_length, count_occ_app.
    change (lit ":" ++ password) with (58%N :: password).
    rewrite count_occ_cons_eq by reflexivity.
    apply (count_occ_In N.eq_dec) in Hp. lia. }
  split; [exact L|].
  rewrite ecr_login_cases. unfold decode_credentials.
  rewrite G. simpl. rewrite B, U.
  destruct (split 58 _) as [|a [|b [|x l]]]; simpl in *;
    try reflexivity; lia.
Qed.

(** The same two facts for a token given as the program receives it: the
    base64 form of the UTF-8 form of [username:password]. *)
Lemma token_decodes (username password : str) :
  Forall is_scalar username -> Forall is_scalar password ->
  let text := username ++ lit ":" ++ password in
  exists raw,
    b64decode (b64encode (utf8_encode text)) = inr raw
    /\ utf8_decode raw = inr text.
Proof.
  intros Hu Hp text.
  assert (Ht : Forall is_scalar text).
  { apply Forall_app. split; [exact Hu|].
    constructor; [left; reflexivity|exact Hp]. }
  exists (utf8_encode text). split.
  - apply b64decode_b64encode, utf8_encode_octets, Ht.
  - apply utf8_decode_encode, Ht.
Qed.

(** X3. For every token that is the base64 form of the UTF-8 form of
    [username:password], with no colon in the username nor in the
    password, [ecr_login] runs one command: [docker login] with exactly
    that username and that password, against the registry host. *)
Lemma ecr_login_token_plain (c : ecr_client) (entry : authorization_data)
      (others : list authorization_data)
      (username password aws_account_id region : str) :
  get_authorization_token c
    = inr {| authorizationData := entry :: others |} ->
  authorizationToken entry
    = b64encode (utf8_encode (username ++ lit ":" ++ password)) ->
  Forall is_scalar username -> Forall is_scalar password ->
  ~ In 58%N username -> ~ In 58%N password ->
  engine_commands (events (ecr_login w c aws_account_id region))
  = [login_command username password
       (registry_host aws_account_id region)].
Proof.
  intros G T Hu Hp Nu Np.
  destruct (token_decodes Hu Hp) as [raw [B U]]. rewrite <- T in B.
  exact (proj2 (@ecr_login_plain_password c entry others raw username password
                  aws_account_id region G B U Nu Np)).
Qed.

Lemma ecr_login_token_colon (c : ecr_client) (entry : authorization_data)
      (others : list authorization_data)
      (username password aws_account_id region : str) :
  get_authorization_token c
    = inr {| authorizationData := entry :: others |} ->
  authorizationToken entry
    = b64encode (utf8_encode (username ++ lit ":" ++ password)) ->
  Forall is_scalar username -> Forall is_scalar password ->
  In 58%N password ->
  exists n, (2 < n)%nat
    /\ ecr_login w c aws_account_id region
       = ([authenticating; login_error (ValueError_Unpack n)],
          Return false).
Proof.
  intros G T Hu Hp Hin.
  destruct (token_decodes Hu Hp) as [raw [B U]]. rewrite <- T in B.
  exact (@ecr_login_colon_in_password c entry others raw username password
           aws_account_id region G B U Hin).
Qed.

End Credential.

(** C1 (the code departs from it). The token is the base64 form of
    [user:pass:with:colons], username [user] and password
    [pass:with:colons].  [split(':')] cuts the decoded text at every
    colon, into four fields; unpacking them into [username, password]
    raises, and [ecr_login] returns [False] without having run
    [docker login], whatever the engine would have answered. *)
Theorem ecr_login_splits_on_every_colon :
  forall (w : env),
    colon_token
    = b64encode (utf8_encode (lit "user" ++ lit ":" ++ lit "pass:with:colons"))
    /\ map_inr (split 58)
         (match b64decode colon_token with
          | inl e => inl e
          | inr raw => utf8_decode raw
          end)
       = inr [lit "user"; lit "pass"; lit "with"; lit "colons"]
    /\ ecr_login w colon_client (lit "123456789012") (lit "us-east-1")
       = ([authenticating; login_error (ValueError_Unpack 4)], Return false)
    /\ engine_commands
         (events (ecr_login w colon_client
                    (lit "123456789012") (lit "us-east-1"))) = [].
Proof.
  intros w.
  assert (E : ecr_login w colon_client (lit "123456789012") (lit "us-east-1")
              = ([authenticating; login_error (ValueError_Unpack 4)],
                 Return false)).
  { rewrite ecr_login_cases. reflexivity. }
  split; [vm_compute; reflexivity|].
  split; [vm_compute; reflexivity|].
  split; [exact E|]. rewrite E. reflexivity.
Qed.

(** ** C2: a failed tag *)

(** C2. When [docker tag] exits with a non-zero code, [tag_and_push_image]
    returns [False] after having shown the failure and the stderr of the
    command; the only command it has run is the tag command, and no
    process was started with [Popen]. *)
Theorem tag_failure_never_pushes :
  forall (w : env) (local_image_tag repository_uri image_tag : str)
         (rc : Z) (out err : str),
    let ecr_image_uri := repository_uri ++ lit ":" ++ image_tag in
    let tag_command :=
      [lit "docker"; lit "tag"; local_image_tag; ecr_image_uri] in
    let run := tag_and_push_image w local_image_tag repository_uri image_tag in
    os_run w tag_command = Exited rc out err ->
    rc <> 0%Z ->
    result run = Return false
    /\ events run = [tagging local_image_tag ecr_image_uri;
                     SubprocessRun tag_command; tag_failed; StCode err]
    /\ (forall cmd, ~ In (SubprocessPopen cmd) (events run))
    /\ engine_commands (events run) = [tag_command].
Proof.
  intros w local_image_tag repository_uri image_tag rc out err
         ecr_image_uri tag_command run Htag Hrc.
  assert (E : run = ([tagging local_image_tag ecr_image_uri;
                      SubprocessRun tag_command; tag_failed; StCode err],
                     Return false)).
  { subst run tag_command ecr_image_uri.
    rewrite tag_and_push_image_cases. rewrite Htag.
    destruct (Z.eqb_spec rc 0); [contradiction|reflexivity]. }
  rewrite E. simpl. repeat split.
  intros cmd [H|[H|[H|[H|[]]]]]; discriminate.
Qed.

Lemma tag_failure_never_pushes_witness :
  let w := machine ok (Exited 1 [] (lit "Error response from daemon: No such image: my-app:latest"))
                   (inr (lit "pushed", 0%Z)) in
  result (tag_and_push_image w (lit "my-app:latest")
            (lit "123456789012.dkr.ecr.us-east-1.amazonaws.com/my-app")
            (lit "latest")) = Return false.
Proof.
  intros w.
  apply (@tag_failure_never_pushes w (lit "my-app:latest")
           (lit "123456789012.dkr.ecr.us-east-1.amazonaws.com/my-app")
           (lit "latest") 1 []
           (lit "Error response from daemon: No such image: my-app:latest")).
  - reflexivity.
  - discriminate.
Defined.

(** ** C10: what the helpers let through *)

Section NoEscape.

Variable w : env.

(** [get_ecr_client] always returns: a client or [None]. *)
Lemma get_ecr_client_returns (region_name : str) :
  exists v, result (get_ecr_client w region_name) = Return v.
Proof.
  unfold get_ecr_client.
  destruct (boto3_client w region_name) as [[]|c]; simpl; eauto.
Qed.

(** [get_ecr_repositories] always returns: a list or [None]. *)
Lemma get_ecr_repositories_returns (c : ecr_client) :
  exists v, result (get_ecr_repositories c) = Return v.
Proof.
  unfold get_ecr_repositories, paginate_loop.
  destruct (paginate_error c) as [[]|]; simpl; eauto.
Qed.

(** [ecr_login] always returns a boolean. *)
Lemma ecr_login_returns (c : ecr_client) (aws_account_id region : str) :
  exists b : bool,
    result (ecr_login w c aws_account_id region) = Return b.
Proof.
  rewrite ecr_login_cases.
  destruct (decode_credentials c) as [e|[u p]]; simpl; eauto.
  destruct (os_run w _) as [msg|rc out err]; simpl; eauto.
  destruct (rc =? 0)%Z; simpl; eauto.
Qed.

(** [tag_and_push_image] returns a boolean or raises [OSError]; it
    raises exactly when a command could not be started. *)
Lemma tag_and_push_image_outcome (local_image_tag repository_uri image_tag : str) :
  (exists b : bool,
      result (tag_and_push_image w local_image_tag repository_uri image_tag)
      = Return b)
  \/ (exists msg,
      result (tag_and_push_image w local_image_tag repository_uri image_tag)
      = Raise (OSError msg)).
Proof.
  rewrite tag_and_push_image_cases. cbv zeta.
  destruct (os_run w _) as [msg|rc out err]; simpl; eauto.
  destruct (rc =? 0)%Z; simpl; eauto.
  destruct (os_popen w _) as [msg|[output status]]; simpl; eauto.
Qed.

End NoEscape.

(** C10 (the code departs from it). On a machine where [docker] cannot be
    started, [subprocess.run] raises an [OSError]; the [try] around the tag
    command catches [CalledProcessError] only, so [tag_and_push_image]
    raises instead of returning [False].  The same holds when only the
    push process cannot be started.  On the same machine [ecr_login]
    catches the error and returns [False]. *)
Theorem tag_and_push_image_lets_oserror_through :
  let missing := LaunchFailed (lit "[Errno 2] No such file or directory: 'docker'") in
  let w := machine missing missing
             (inl (lit "[Errno 2] No such file or directory: 'docker'")) in
  let w' := machine ok ok (inl (lit "[Errno 12] Cannot allocate memory")) in
  let uri := lit "123456789012.dkr.ecr.us-east-1.amazonaws.com/my-app" in
  result (tag_and_push_image w (lit "my-app:latest") uri (lit "latest"))
  = Raise (OSError (lit "[Errno 2] No such file or directory: 'docker'"))
  /\ result (tag_and_push_image w' (lit "my-app:latest") uri (lit "latest"))
     = Raise (OSError (lit "[Errno 12] Cannot allocate memory"))
  /\ result (ecr_login w aws_client (lit "123456789012") (lit "us-east-1"))
     = Return false.
Proof. vm_compute. repeat split. Qed.

(** ** C6: the exit code of the push *)

(** C6, as the code has it. When the tag succeeds and the push process
    exits with a non-zero code, [tag_and_push_image] returns [False], and
    the last thing it shows is the fixed message of a failed push, after
    all the output of the process.  Neither the value nor the events
    mention the exit code. *)
Theorem push_failure_returns_false :
  forall (w : env) (local_image_tag repository_uri image_tag : str)
         (out err output : str) (status : Z),
    let ecr_image_uri := repository_uri ++ lit ":" ++ image_tag in
    let tag_command :=
      [lit "docker"; lit "tag"; local_image_tag; ecr_image_uri] in
    let push_command := [lit "docker"; lit "push"; ecr_image_uri] in
    let run := tag_and_push_image w local_image_tag repository_uri image_tag in
    os_run w tag_command = Exited 0 out err ->
    os_popen w push_command = inr (output, status) ->
    status <> 0%Z ->
    result run = Return false
    /\ events run
       = [tagging local_image_tag ecr_image_uri; SubprocessRun tag_command;
          tag_succeeded;
          StInfo (Text (lit "Pushing image to ECR repository: "
                        ++ ecr_image_uri));
          StSpinnerEnter
            (Text (lit "Pushing Docker image... This may take a while."));
          SubprocessPopen push_command;
          StEmpty]
         ++ List.map LogCode (snapshots [] (emitted_lines output))
         ++ [StSpinnerExit; push_failed].
Proof.
  intros w local_image_tag repository_uri image_tag out err output status
         ecr_image_uri tag_command push_command run Htag Hpush Hst.
  subst run tag_command push_command ecr_image_uri.
  rewrite tag_and_push_image_cases. cbv zeta. rewrite Htag, Hpush.
  unfold push_events. simpl.
  destruct (Z.eqb_spec status 0); [contradiction|]. split; reflexivity.
Qed.

Lemma push_failure_returns_false_witness :
  let w := machine ok ok (inr (lit "denied: requested access to the resource is denied", 1%Z)) in
  result (tag_and_push_image w (lit "my-app:latest")
            (lit "123456789012.dkr.ecr.us-east-1.amazonaws.com/my-app")
            (lit "latest")) = Return false.
Proof.
  intros w.
  apply (@push_failure_returns_false w (lit "my-app:latest")
           (lit "123456789012.dkr.ecr.us-east-1.amazonaws.com/my-app")
           (lit "latest") [] []
           (lit "denied: requested access to the resource is denied") 1).
  - reflexivity.
  - reflexivity.
  - discriminate.
Defined.

(** Two pushes that exit with 1 and with 2 give the caller the same value
    and the same events: no function of what [tag_and_push_image] hands
    back recovers the exit code of the push process. *)
Lemma push_exit_code_not_recoverable :
  let w1 := machine ok ok (inr (lit "denied", 1%Z)) in
  let w2 := machine ok ok (inr (lit "denied", 2%Z)) in
  let run (w : env) :=
    tag_and_push_image w (lit "my-app:latest")
      (lit "123456789012.dkr.ecr.us-east-1.amazonaws.com/my-app")
      (lit "latest") in
  ~ (exists recover : M bool -> Z,
        recover (run w1) = 1%Z /\ recover (run w2) = 2%Z).
Proof.
  intros w1 w2 run [recover [H1 H2]].
  assert (E : run w1 = run w2) by (vm_compute; reflexivity).
  rewrite E in H1. rewrite H1 in H2. discriminate.
Qed.

(** ** C7 and C9: draining the push process *)

(** C7. For every push process, the lines the loop reads are the lines of
    the text the process wrote, cut after each newline and in the order of
    the text; put end to end they give that text back.  The log widget
    shows, line after line, all lines read so far.  The loop ends with
    nothing left unread, and the process is then waited for. *)
Theorem drain_yields_emitted_lines :
  forall (p : process),
    let lines := fst (iter_readline p) in
    lines = emitted_lines (unread p)
    /\ List.concat lines = unread p
    /\ unread (snd (iter_readline p)) = []
    /\ events (drain p) = StEmpty :: List.map LogCode (snapshots [] lines)
    /\ result (drain p)
       = Return {| unread := []; exit_status := exit_status p;
                   returncode := Some (exit_status p) |}.
Proof.
  intros p lines. subst lines.
  rewrite drain_cases, iter_readline_lines. simpl.
  repeat split. apply (concat_lines_from (unread p) []).
Qed.

Lemma last_cons {A} (x d : A) (l : list A) : last (x :: l) d = last l x.
Proof.
  revert x d. induction l as [|y l IH]; intros x d; [reflexivity|].
  change (last (x :: y :: l) d) with (last (y :: l) d).
  now rewrite !IH.
Qed.

(** The last snapshot is the whole output. *)
Lemma snapshots_last (lines : list str) :
  forall logs, last (snapshots logs lines) logs = logs ++ List.concat lines.
Proof.
  induction lines as [|line rest IH]; intros logs; simpl snapshots.
  - simpl. now rewrite app_nil_r.
  - rewrite last_cons, IH. simpl. now rewrite app_assoc.
Qed.




(** ** C5 and C3: the button *)

Lemma engine_commands_app (t1 t2 : list event) :
  engine_commands (t1 ++ t2) = engine_commands t1 ++ engine_commands t2.
Proof.
  induction t1 as [|ev t1 IH]; simpl; [reflexivity|].
  destruct ev; simpl; rewrite IH; reflexivity.
Qed.

Lemma engine_commands_logs (l : list str) :
  engine_commands (List.map LogCode l) = [].
Proof. induction l; simpl; auto. Qed.

Lemma engine_commands_run (cmd : list str) (t : list event) :
  In (SubprocessRun cmd) t -> In cmd (engine_commands t).
Proof.
  induction t as [|ev t IH]; simpl; [tauto|].
  intros [->|H]; [left; reflexivity|].
  destruct ev; simpl; auto.
Qed.

(** The commands of [tag_and_push_image]: the tag command, then the push
    command if the tag succeeded; both name the same target. *)
Lemma tag_and_push_image_commands (w : env)
      (local_image_tag repository_uri image_tag : str) :
  let ecr_image_uri := repository_uri ++ lit ":" ++ image_tag in
  let tag_command :=
    [lit "docker"; lit "tag"; local_image_tag; ecr_image_uri] in
  let push_command := [lit "docker"; lit "push"; ecr_image_uri] in
  let cmds :=
    engine_commands
      (events (tag_and_push_image w local_image_tag repository_uri image_tag))
  in
  cmds = [tag_command] \/ cmds = [tag_command; push_command].
Proof.
  intros ecr_image_uri tag_command push_command cmds.
  subst cmds push_command tag_command ecr_image_uri.
  rewrite tag_and_push_image_cases. cbv zeta.
  destruct (os_run w _) as [msg|rc out err]; [left; reflexivity|].
  destruct (rc =? 0)%Z; [|left; reflexivity].
  destruct (os_popen w _) as [msg|[output status]]; [right; reflexivity|].
  right. unfold push_events, events. cbn [fst].
  cbn [engine_commands app tagging].
  rewrite engine_commands_app, engine_commands_logs.
  destruct (status =? 0)%Z; reflexivity.
Qed.

Section Button.

Variable w : env.
Variable c : ecr_client.
Variables aws_account_id aws_region : str.
Variables selected_repo local_image new_image_tag : str.

Let account_id := strip aws_account_id.
Let region := strip aws_region.
Let repository_uri :=
  account_id ++ lit ".dkr.ecr." ++ region ++ lit ".amazonaws.com/"
  ++ selected_repo.

(** The button, path by path. *)
Lemma push_to_ecr_cases :
  push_to_ecr w c aws_account_id aws_region selected_repo local_image
              new_image_tag
  = if all [selected_repo; local_image; new_image_tag; account_id] then
      match ecr_login w c account_id region with
      | (t, Return true) =>
          (t ++ events (tag_and_push_image w (strip local_image)
                          repository_uri (strip new_image_tag)),
           match result (tag_and_push_image w (strip local_image)
                           repository_uri (strip new_image_tag)) with
           | Return _ => Return tt
           | Raise e => Raise e
           end)
      | (t, Return false) => (t, Return tt)
      | (t, Raise e) => (t, Raise e)
      end
    else
      ([StWarning
          (Text (lit "Please fill in all the repository and image details."))],
       Return tt).
Proof.
  unfold push_to_ecr. fold account_id. fold region.
  destruct (all _); [|reflexivity].
  destruct (ecr_login w c account_id region) as [t [[]|e]]; simpl;
    try (rewrite app_nil_r; reflexivity); try reflexivity.
  fold repository_uri.
  destruct (tag_and_push_image _ _ _ _) as [t' [b|e]]; simpl;
    rewrite ?app_nil_r; reflexivity.
Qed.

End Button.

(** C5. With all fields filled in and the login successful, the commands
    the button hands to the engine are the login, the tag command and, if
    the tag succeeded, the push command.  The repository URI is
    [{accountId}.dkr.ecr.{region}.amazonaws.com/{repositoryName}]; the tag
    and the push command both name it with [:{tag}] appended.  Here
    [accountId], [region] and [tag] are the values the handler works with:
    the text of the inputs without the whitespace around it. *)
Theorem remote_uri_format :
  forall (w : env) (c : ecr_client)
         (aws_account_id aws_region selected_repo local_image
          new_image_tag : str),
    let accountId := strip aws_account_id in
    let region := strip aws_region in
    let repositoryName := selected_repo in
    let tag := strip new_image_tag in
    let remoteUri :=
      accountId ++ lit ".dkr.ecr." ++ region ++ lit ".amazonaws.com/"
      ++ repositoryName in
    let target := remoteUri ++ lit ":" ++ tag in
    all [selected_repo; local_image; new_image_tag; accountId] = true ->
    result (ecr_login w c accountId region) = Return true ->
    exists (username password : str) (rest : list (list str)),
      engine_commands
        (events (push_to_ecr w c aws_account_id aws_region selected_repo
                   local_image new_image_tag))
      = login_command username password
          (accountId ++ lit ".dkr.ecr." ++ region ++ lit ".amazonaws.com")
        :: [lit "docker"; lit "tag"; strip local_image; target]
        :: rest
      /\ (rest = [] \/ rest = [[lit "docker"; lit "push"; target]]).
Proof.
  intros w c aws_account_id aws_region selected_repo local_image
         new_image_tag accountId region repositoryName tag remoteUri target
         Hall Hlogin.
  subst target remoteUri tag repositoryName region accountId.
  rewrite push_to_ecr_cases, Hall.
  revert Hlogin. rewrite ecr_login_cases.
  destruct (decode_credentials c) as [e|[username password]];
    [discriminate|].
  cbv zeta.
  destruct (os_run w _) as [msg|rc out err]; [discriminate|].
  destruct (rc =? 0)%Z; [|discriminate].
  intros _. exists username, password.
  unfold events at 1. cbn [fst]. rewrite engine_commands_app.
  cbn [engine_commands app authenticating].
  destruct (tag_and_push_image_commands w (strip local_image)
              (strip aws_account_id ++ lit ".dkr.ecr." ++ strip aws_region
               ++ lit ".amazonaws.com/" ++ selected_repo)
              (strip new_image_tag)) as [E|E];
    cbv zeta in E; rewrite E.
  - exists []. split; [reflexivity|left; reflexivity].
  - eexists. split; [reflexivity|right; reflexivity].
Qed.

(** The scenario of the specification, on a machine where everything
    succeeds. *)
Lemma remote_uri_format_witness :
  exists (username password : str) (rest : list (list str)),
    engine_commands
      (events (push_to_ecr (machine ok ok (inr (lit "latest: digest: sha256:0 size: 1", 0%Z)))
                 aws_client (lit "123456789012") (lit "us-east-1")
                 (lit "my-app") (lit "my-app:latest") (lit "latest")))
    = login_command username password
        (lit "123456789012.dkr.ecr.us-east-1.amazonaws.com")
      :: [lit "docker"; lit "tag"; lit "my-app:latest";
          lit "123456789012.dkr.ecr.us-east-1.amazonaws.com/my-app:latest"]
      :: rest
    /\ (rest = []
        \/ rest = [[lit "docker"; lit "push";
                    lit "123456789012.dkr.ecr.us-east-1.amazonaws.com/my-app:latest"]]).
Proof.
  apply (@remote_uri_format
           (machine ok ok (inr (lit "latest: digest: sha256:0 size: 1", 0%Z)))
           aws_client (lit "123456789012") (lit "us-east-1")
           (lit "my-app") (lit "my-app:latest") (lit "latest")).
  - reflexivity.
  - vm_compute. reflexivity.
Defined.

(** The commands of that run, in full, with blanks typed around the
    account id. *)
Example remote_uri_scenario :
  engine_commands
    (events (push_to_ecr (machine ok ok (inr (lit "latest: digest: sha256:0 size: 1", 0%Z)))
               aws_client (lit " 123456789012 ") (lit "us-east-1")
               (lit "my-app") (lit "my-app:latest") (lit "latest")))
  = [ [lit "docker"; lit "login"; lit "--username"; lit "AWS";
       lit "--password"; lit "secret";
       lit "123456789012.dkr.ecr.us-east-1.amazonaws.com"];
      [lit "docker"; lit "tag"; lit "my-app:latest";
       lit "123456789012.dkr.ecr.us-east-1.amazonaws.com/my-app:latest"];
      [lit "docker"; lit "push";
       lit "123456789012.dkr.ecr.us-east-1.amazonaws.com/my-app:latest"] ].
Proof. vm_compute. reflexivity. Qed.

Lemma SubprocessRun_inj (a b : list str) :
  SubprocessRun a = SubprocessRun b -> a = b.
Proof. congruence. Qed.

(** C3. In every run of the button in which [docker login] was executed
    and exited with a non-zero code, the page shows the login failure and
    then the stderr of the command, unchanged, and the run ends there:
    nothing of [tag_and_push_image] happens, no tag and no push. *)
Theorem login_failure_stops_pipeline :
  forall (w : env) (c : ecr_client)
         (aws_account_id aws_region selected_repo local_image
          new_image_tag : str)
         (args : list str) (rc : Z) (out err : str),
    let run := push_to_ecr w c aws_account_id aws_region selected_repo
                 local_image new_image_tag in
    let cmd := lit "docker" :: lit "login" :: args in
    In (SubprocessRun cmd) (events run) ->
    os_run w cmd = Exited rc out err ->
    rc <> 0%Z ->
    run = ([authenticating; SubprocessRun cmd; login_failed; StCode err],
           Return tt)
    /\ engine_commands (events run) = [cmd].
Proof.
  intros w c aws_account_id aws_region selected_repo local_image
         new_image_tag args rc out err run cmd Hin Hrun Hrc.
  assert (E : run = ([authenticating; SubprocessRun cmd; login_failed;
                      StCode err], Return tt));
    [|rewrite E; split; reflexivity].
  subst run. revert Hin. rewrite push_to_ecr_cases.
  destruct (all _).
  2:{ intros [H|[]]. discriminate. }
  rewrite ecr_login_cases.
  destruct (decode_credentials c) as [e|[username password]].
  { intros [H|[H|[]]]; discriminate. }
  cbv zeta.
  destruct (os_run w (login_command _ _ _)) as [msg|rc' out' err'] eqn:L.
  { intros [H|[H|[H|[]]]]; try discriminate.
    apply SubprocessRun_inj in H. rewrite H in L. subst cmd. congruence. }
  destruct (Z.eqb_spec rc' 0) as [->|Hrc'].
  - unfold events. cbn [fst]. intros Hin.
    apply engine_commands_run in Hin.
    rewrite engine_commands_app in Hin.
    cbn [engine_commands app authenticating] in Hin.
    destruct Hin as [H|Hin].
    { rewrite H in L. subst cmd. congruence. }
    destruct (tag_and_push_image_commands w (strip local_image)
                (strip aws_account_id ++ lit ".dkr.ecr." ++ strip aws_region
                 ++ lit ".amazonaws.com/" ++ selected_repo)
                (strip new_image_tag)) as [E|E];
      cbv zeta in E; unfold events in E; rewrite E in Hin;
      simpl in Hin; subst cmd;
      repeat (destruct Hin as [Hin|Hin]; try discriminate Hin);
      contradiction.
  - intros [H|[H|[H|[H|[]]]]]; try discriminate.
    apply SubprocessRun_inj in H. rewrite H in L. subst cmd.
    rewrite Hrun in L. injection L as <- <- <-.
    rewrite H. reflexivity.
Qed.

Lemma login_failure_stops_pipeline_witness :
  engine_commands
    (events (push_to_ecr
               (machine (Exited 1 [] (lit "Error response from daemon: no basic auth credentials"))
                        ok (inr ([], 0%Z)))
               aws_client (lit "123456789012") (lit "us-east-1")
               (lit "my-app") (lit "my-app:latest") (lit "latest")))
  = [login_command (lit "AWS") (lit "secret")
       (lit "123456789012.dkr.ecr.us-east-1.amazonaws.com")].
Proof.
  apply (@login_failure_stops_pipeline
           (machine (Exited 1 [] (lit "Error response from daemon: no basic auth credentials"))
                    ok (inr ([], 0%Z)))
           aws_client (lit "123456789012") (lit "us-east-1")
           (lit "my-app") (lit "my-app:latest") (lit "latest")
           [lit "--username"; lit "AWS"; lit "--password"; lit "secret";
            lit "123456789012.dkr.ecr.us-east-1.amazonaws.com"]
           1 [] (lit "Error response from daemon: no basic auth credentials")).
  - vm_compute. right. left. reflexivity.
  - reflexivity.
  - discriminate.
Defined.

(** * Further properties of the program *)

(** ** Blank inputs *)

Lemma lstrip_head (s : str) :
  lstrip s = [] \/ exists c t, lstrip s = c :: t /\ isspace c = false.
Proof.
  induction s as [|c t IH]; simpl; [left; reflexivity|].
  destruct (isspace c) eqn:E; [exact IH|].
  right. exists c, t. auto.
Qed.

Lemma lstrip_nil_blank (s : str) : lstrip s = [] <-> blank s.
Proof.
  unfold blank. induction s as [|c t IH]; simpl.
  - split; [constructor|reflexivity].
  - destruct (isspace c) eqn:E.
    + rewrite IH. split; [intros H; constructor; assumption|].
      intros H. apply Forall_cons_iff in H. tauto.
    + split; [discriminate|]. intros H.
      apply Forall_cons_iff in H as [H _]. congruence.
Qed.

Lemma strip_nil_blank (s : str) : strip s = [] <-> blank s.
Proof.
  unfold strip. split.
  - intros H. apply (f_equal (@rev N)) in H. rewrite rev_involutive in H.
    simpl in H. apply lstrip_nil_blank in H. unfold blank in H.
    apply Forall_rev in H. rewrite rev_involutive in H.
    destruct (lstrip_head s) as [E|[c [t [E Hc]]]].
    + apply lstrip_nil_blank, E.
    + rewrite E in H. apply Forall_cons_iff in H as [H _]. congruence.
  - intros H. apply lstrip_nil_blank in H. rewrite H. reflexivity.
Qed.

(** ** The login, seen from its caller *)

(** X1. [ecr_login] returns [True] exactly when the credential could be
    decoded and [docker login], run with it against the registry host of
    the account and region, exited with 0. *)
Theorem ecr_login_true_iff :
  forall (w : env) (c : ecr_client) (aws_account_id region : str),
    result (ecr_login w c aws_account_id region) = Return true
    <-> exists username password out err,
          decode_credentials c = inr (username, password)
          /\ os_run w (login_command username password
                         (registry_host aws_account_id region))
             = Exited 0 out err.
Proof.
  intros w c aws_account_id region. rewrite ecr_login_cases. split.
  - destruct (decode_credentials c) as [e|[username password]];
      [discriminate|].
    cbv zeta.
    destruct (os_run w _) as [msg|rc out err] eqn:R; [discriminate|].
    destruct (Z.eqb_spec rc 0) as [->|Hrc]; [|discriminate].
    intros _. exists username, password, out, err. auto.
  - intros [username [password [out [err [D R]]]]].
    rewrite D. cbv zeta. rewrite R. reflexivity.
Qed.

Lemma ecr_login_engine_commands (w : env) (c : ecr_client)
      (aws_account_id region : str) :
  engine_commands (events (ecr_login w c aws_account_id region))
  = match decode_credentials c with
    | inl _ => []
    | inr (username, password) =>
        [login_command username password
           (registry_host aws_account_id region)]
    end.
Proof.
  rewrite ecr_login_cases.
  destruct (decode_credentials c) as [e|[username password]];
    [reflexivity|].
  cbv zeta. destruct (os_run w _) as [msg|rc out err]; [reflexivity|].
  destruct (rc =? 0)%Z; reflexivity.
Qed.

Lemma split_two_iff (sep : N) (s : str) :
  (exists a b, split sep s = [a; b]) <-> count_occ N.eq_dec s sep = 1%nat.
Proof.
  pose proof (split_length sep s) as L. split.
  - intros [a [b E]]. rewrite E in L. simpl in L. lia.
  - intros C. rewrite C in L.
    destruct (split sep s) as [|a [|b [|x l]]]; simpl in L; try lia.
    eauto.
Qed.

(** X2. For a token that decodes to a text, [docker login] is run exactly
    when the text holds one colon: with none or with several the login
    stops before any command. *)
Theorem ecr_login_runs_iff_one_colon :
  forall (w : env) (c : ecr_client) (entry : authorization_data)
         (others : list authorization_data) (raw : bytes) (text : str)
         (aws_account_id region : str),
    get_authorization_token c
      = inr {| authorizationData := entry :: others |} ->
    b64decode (authorizationToken entry) = inr raw ->
    utf8_decode raw = inr text ->
    (engine_commands (events (ecr_login w c aws_account_id region)) <> []
     <-> count_occ N.eq_dec text 58%N = 1%nat).
Proof.
  intros w c entry others raw text aws_account_id region G B U.
  rewrite ecr_login_engine_commands, <- split_two_iff.
  unfold decode_credentials. rewrite G. simpl. rewrite B, U.
  destruct (split 58 text) as [|a [|b [|x l]]]; split;
    try (intros H; now contradiction H);
    try (intros [a' [b' E]]; discriminate);
    try discriminate.
  intros _. eauto.
Qed.

Lemma ecr_login_runs_iff_one_colon_witness :
  engine_commands
    (events (ecr_login (machine ok ok (inl [])) aws_client
               (lit "123456789012") (lit "us-east-1"))) <> []
  <-> count_occ N.eq_dec (lit "AWS:secret") 58%N = 1%nat.
Proof.
  apply (@ecr_login_runs_iff_one_colon (machine ok ok (inl [])) aws_client
           {| authorizationToken := aws_token;
              proxyEndpoint :=
                lit "https://123456789012.dkr.ecr.us-east-1.amazonaws.com" |}
           [] (lit "AWS:secret") (lit "AWS:secret")).
  - reflexivity.
  - vm_compute. reflexivity.
  - vm_compute. reflexivity.
Defined.

(** ** Tagging and pushing, seen from the caller *)

Section PublishingOutcome.

Variable w : env.
Variables local_image_tag repository_uri image_tag : str.

Let ecr_image_uri : str := repository_uri ++ lit ":" ++ image_tag.
Let tag_command : list str :=
  [lit "docker"; lit "tag"; local_image_tag; ecr_image_uri].
Let push_command : list str := [lit "docker"; lit "push"; ecr_image_uri].
Let run : M bool :=
  tag_and_push_image w local_image_tag repository_uri image_tag.

Lemma tag_and_push_image_run_cases :
  run =
  match os_run w tag_command with
  | LaunchFailed msg =>
      ([tagging local_image_tag ecr_image_uri; SubprocessRun tag_command],
       Raise (OSError msg))
  | Exited rc out err =>
      if (rc =? 0)%Z then
        match os_popen w push_command with
        | inl msg =>
            ([tagging local_image_tag ecr_image_uri;
              SubprocessRun tag_command;
              tag_succeeded;
              StInfo (Text (lit "Pushing image to ECR repository: "
                            ++ ecr_image_uri));
              StSpinnerEnter
                (Text (lit "Pushing Docker image... This may take a while."));
              SubprocessPopen push_command;
              StSpinnerExit],
             Raise (OSError msg))
        | inr (output, status) =>
            (tagging local_image_tag ecr_image_uri
             :: SubprocessRun tag_command
             :: push_events ecr_image_uri output status,
             Return (status =? 0)%Z)
        end
      else
        ([tagging local_image_tag ecr_image_uri; SubprocessRun tag_command;
          tag_failed; StCode err],
         Return false)
  end.
Proof. apply tag_and_push_image_cases. Qed.

(** X4. [tag_and_push_image] returns [True] exactly when [docker tag]
    exited with 0, the push process could be started and it exited
    with 0. *)
Theorem tag_and_push_image_true_iff :
  result run = Return true
  <-> exists out err output,
        os_run w tag_command = Exited 0 out err
        /\ os_popen w push_command = inr (output, 0%Z).
Proof.
  rewrite tag_and_push_image_run_cases. split.
  - destruct (os_run w tag_command) as [msg|rc out err]; [discriminate|].
    destruct (Z.eqb_spec rc 0) as [->|Hrc]; [|discriminate].
    destruct (os_popen w push_command) as [msg|[output status]];
      [discriminate|].
    simpl. destruct (Z.eqb_spec status 0) as [->|Hst]; [|discriminate].
    intros _. exists out, err, output. auto.
  - intros [out [err [output [T P]]]]. rewrite T. simpl. rewrite P.
    reflexivity.
Qed.


End PublishingOutcome.

(** ** The log of the push *)

Lemma log_updates_app (t1 t2 : list event) :
  log_updates (t1 ++ t2) = log_updates t1 ++ log_updates t2.
Proof.
  induction t1 as [|ev t1 IH]; simpl; [reflexivity|].
  destruct ev; simpl; rewrite IH; reflexivity.
Qed.

Lemma log_updates_logs (l : list str) :
  log_updates (List.map LogCode l) = l.
Proof. induction l; simpl; congruence. Qed.

Lemma snapshots_length (lines : list str) :
  forall logs, List.length (snapshots logs lines) = List.length lines.
Proof. induction lines; intros logs; simpl; auto. Qed.

Lemma snapshots_nth (lines : list str) :
  forall logs k, (k < List.length lines)%nat ->
    nth k (snapshots logs lines) [] = logs ++ List.concat (firstn (S k) lines).
Proof.
  induction lines as [|line rest IH]; intros logs k Hk; simpl in Hk; [lia|].
  destruct k as [|k].
  - simpl. now rewrite app_nil_r.
  - change (nth (S k) (snapshots logs (line :: rest)) [])
      with (nth k (snapshots (logs ++ line) rest) []).
    rewrite IH by lia.
    change (firstn (S (S k)) (line :: rest))
      with (line :: firstn (S k) rest).
    simpl List.concat. now rewrite app_assoc.
Qed.

(** X6. When the tag succeeded and the push process started, the log
    widget is updated once per line of its output, the k-th update shows
    the first k lines, and the last update shows the whole output; a
    process that wrote nothing leaves the widget untouched. *)
Theorem push_log_updates :
  forall (w : env) (local_image_tag repository_uri image_tag : str)
         (out err output : str) (status : Z),
    let ecr_image_uri := repository_uri ++ lit ":" ++ image_tag in
    let updates :=
      log_updates
        (events (tag_and_push_image w local_image_tag repository_uri
                   image_tag)) in
    let lines := emitted_lines output in
    os_run w [lit "docker"; lit "tag"; local_image_tag; ecr_image_uri]
      = Exited 0 out err ->
    os_popen w [lit "docker"; lit "push"; ecr_image_uri]
      = inr (output, status) ->
    List.length updates = List.length lines
    /\ (forall k, (k < List.length lines)%nat ->
          nth k updates [] = List.concat (firstn (S k) lines))
    /\ last updates [] = output
    /\ (output = [] -> updates = []).
Proof.
  intros w local_image_tag repository_uri image_tag out err output status
         ecr_image_uri updates lines T P.
  assert (E : updates = snapshots [] lines).
  { subst updates lines ecr_image_uri.
    rewrite tag_and_push_image_cases. cbv zeta. rewrite T, P.
    change (0 =? 0)%Z with true. cbv iota.
    unfold events, push_events. cbn [fst].
    change (tagging ?a ?b :: SubprocessRun ?c :: ?l)
      with ([tagging a b; SubprocessRun c] ++ l).
    rewrite !log_updates_app, log_updates_logs.
    destruct (status =? 0)%Z; simpl; now rewrite app_nil_r. }
  rewrite E. repeat split.
  - apply snapshots_length.
  - intros k Hk. now rewrite snapshots_nth.
  - rewrite snapshots_last. subst lines. unfold emitted_lines.
    now rewrite concat_lines_from.
  - intros ->. reflexivity.
Qed.

Lemma push_log_updates_witness :
  last (log_updates
          (events (tag_and_push_image
                     (machine ok ok
                        (inr (List.app (lit "Pushed") (10%N :: lit "latest: digest"), 0%Z)))
                     (lit "my-app:latest")
                     (lit "123456789012.dkr.ecr.us-east-1.amazonaws.com/my-app")
                     (lit "latest")))) []
  = List.app (lit "Pushed") (10%N :: lit "latest: digest").
Proof.
  apply (@push_log_updates
           (machine ok ok
              (inr (List.app (lit "Pushed") (10%N :: lit "latest: digest"), 0%Z)))
           (lit "my-app:latest")
           (lit "123456789012.dkr.ecr.us-east-1.amazonaws.com/my-app")
           (lit "latest") [] []
           (List.app (lit "Pushed") (10%N :: lit "latest: digest")) 0).
  - reflexivity.
  - reflexivity.
Defined.

(** ** More on the listing *)

Lemma in_names_of_pages (pages : list page) (name : str) :
  In name (names_of_pages pages)
  <-> exists pg repo, In pg pages /\ In repo (repositories pg)
                      /\ repositoryName repo = name.
Proof.
  unfold names_of_pages. rewrite in_flat_map. split.
  - intros [pg [Hpg H]]. apply in_map_iff in H as [repo [E Hr]].
    exists pg, repo. auto.
  - intros [pg [repo [Hpg [Hr E]]]]. exists pg. split; [exact Hpg|].
    apply in_map_iff. exists repo. auto.
Qed.

Lemma length_names_of_pages (pages : list page) :
  List.length (names_of_pages pages)
  = list_sum (List.map (fun pg => List.length (repositories pg)) pages).
Proof.
  unfold names_of_pages. induction pages as [|pg pages IH]; simpl;
    [reflexivity|].
  rewrite length_app, length_map, IH. reflexivity.
Qed.

(** X7. When the paginator ends without error, the list returned holds a
    name exactly when some page lists a repository of that name, and as
    many names as the pages list repositories: nothing is dropped, nothing
    merged, duplicates included. *)
Theorem get_ecr_repositories_complete :
  forall (c : ecr_client),
    paginate_error c = None ->
    exists names,
      result (get_ecr_repositories c) = Return (Some names)
      /\ (forall name,
            In name names
            <-> exists pg repo, In pg (paginate_pages c)
                                /\ In repo (repositories pg)
                                /\ repositoryName repo = name)
      /\ List.length names
         = list_sum (List.map (fun pg => List.length (repositories pg))
                              (paginate_pages c)).
Proof.
  intros c Hc. exists (names_of_pages (paginate_pages c)).
  split; [|split].
  - unfold get_ecr_repositories, paginate_loop. rewrite Hc. simpl.
    rewrite fold_pages_app. reflexivity.
  - intros name. apply in_names_of_pages.
  - apply length_names_of_pages.
Qed.

Lemma get_ecr_repositories_complete_witness :
  exists names,
    result (get_ecr_repositories aws_client) = Return (Some names)
    /\ List.length names = 1%nat.
Proof.
  destruct (@get_ecr_repositories_complete aws_client eq_refl)
    as [names [R [_ L]]].
  exists names. split; [exact R|exact L].
Defined.

(** X8. An error of the paginator, after any number of pages, makes
    [get_ecr_repositories] return [None]: the names read so far are not
    returned.  One message is shown; it asks to check credentials and
    permissions when the error is a [ClientError], and speaks of an
    unexpected error otherwise. *)
Theorem get_ecr_repositories_failure :
  forall (c : ecr_client) (e : sdk_error),
    paginate_error c = Some e ->
    get_ecr_repositories c
    = ([StError
          match e with
          | SdkClientError msg =>
              TextExn (lit "Error fetching ECR repositories: ")
                      (ClientError msg)
                      (lit ". Check your credentials and permissions.")
          | _ => TextExn (lit "An unexpected error occurred: ")
                         (exn_of_sdk e) []
          end],
       Return None).
Proof.
  intros c e Hc. unfold get_ecr_repositories, paginate_loop. rewrite Hc.
  destruct e; reflexivity.
Qed.

Lemma get_ecr_repositories_failure_witness :
  result (get_ecr_repositories
            {| paginate_pages := paginate_pages aws_client;
               paginate_error := Some (SdkClientError (lit "AccessDeniedException"));
               get_authorization_token := inl SdkNoCredentials |})
  = Return None.
Proof.
  rewrite (@get_ecr_repositories_failure
             {| paginate_pages := paginate_pages aws_client;
                paginate_error := Some (SdkClientError (lit "AccessDeniedException"));
                get_authorization_token := inl SdkNoCredentials |}
             (SdkClientError (lit "AccessDeniedException")) eq_refl).
  reflexivity.
Defined.

(** ** The two buttons *)

Lemma all_false_iff (a b c d : str) :
  all [a; b; c; d] = false <-> a = [] \/ b = [] \/ c = [] \/ d = [].
Proof.
  unfold all. simpl.
  destruct a, b, c, d; simpl; split; intros H; try discriminate; auto;
    repeat (destruct H as [H|H]; try discriminate H); discriminate.
Qed.

Lemma all2_false_iff (a b : str) :
  all [a; b] = false <-> a = [] \/ b = [].
Proof.
  unfold all. simpl.
  destruct a, b; simpl; split; intros H; try discriminate; auto;
    repeat (destruct H as [H|H]; try discriminate H); discriminate.
Qed.

Lemma ecr_login_starts (w : env) (c : ecr_client) (a r : str) :
  exists t, events (ecr_login w c a r) = authenticating :: t.
Proof.
  rewrite ecr_login_cases.
  destruct (decode_credentials c) as [e|[u p]]; [eexists; reflexivity|].
  cbv zeta. destruct (os_run w _) as [msg|rc out err];
    [eexists; reflexivity|].
  destruct (rc =? 0)%Z; eexists; reflexivity.
Qed.

(** X9. The push button does nothing but warn exactly when the selected
    repository, the local image name or the tag is empty, or the account
    id is blank.  Nothing else stops it: not a blank region, and not a
    local image name or a tag made of blanks, which are stripped only
    after the check. *)
Theorem push_to_ecr_refuses_iff :
  forall (w : env) (c : ecr_client)
         (aws_account_id aws_region selected_repo local_image
          new_image_tag : str),
    push_to_ecr w c aws_account_id aws_region selected_repo local_image
                new_image_tag
    = ([fill_in_details], Return tt)
    <-> selected_repo = [] \/ local_image = [] \/ new_image_tag = []
        \/ blank aws_account_id.
Proof.
  intros w c aws_account_id aws_region selected_repo local_image
         new_image_tag.
  rewrite <- strip_nil_blank, <- all_false_iff, push_to_ecr_cases.
  destruct (all _) eqn:A.
  - split; [|discriminate]. intros H. exfalso.
    destruct (ecr_login_starts w c (strip aws_account_id) (strip aws_region))
      as [t E].
    destruct (ecr_login w c (strip aws_account_id) (strip aws_region))
      as [t0 [[]|e]]; unfold events in E; cbn [fst] in E; subst t0;
      discriminate.
  - split; reflexivity.
Qed.

(** [connect_to_aws], path by path. *)
Lemma connect_to_aws_cases (w : env) (aws_region aws_account_id : str)
      (session : session_state) :
  connect_to_aws w aws_region aws_account_id session =
  if all [strip aws_region; strip aws_account_id] then
    match boto3_client w (strip aws_region) with
    | inl e =>
        ([client_error e],
         Return {| ecr_client_entry := Some None;
                   repos_entry := repos_entry session |})
    | inr c =>
        match paginate_error c with
        | Some e =>
            ([fetching; listing_error e; StSpinnerExit],
             Return {| ecr_client_entry := Some (Some c);
                       repos_entry := Some None |})
        | None =>
            ([fetching; StSpinnerExit; connected],
             Return {| ecr_client_entry := Some (Some c);
                       repos_entry :=
                         Some (Some (names_of_pages (paginate_pages c))) |})
        end
    end
  else ([provide_region_and_account], Return session).
Proof.
  unfold connect_to_aws. destruct (all _); [|reflexivity].
  unfold get_ecr_client.
  destruct (boto3_client w (strip aws_region)) as [e|c]; simpl.
  { destruct e; reflexivity. }
  unfold get_ecr_repositories, paginate_loop.
  destruct (paginate_error c) as [e|]; simpl.
  { destruct e; reflexivity. }
  rewrite fold_pages_app. reflexivity.
Qed.

(** X10. When the client cannot be created, the connect button stores
    [None] as the client and leaves the repository list of the session
    untouched: after an earlier successful connect the form of the second
    section stays on the page with the old list. *)
Theorem connect_to_aws_keeps_old_list :
  forall (w : env) (aws_region aws_account_id : str)
         (session : session_state) (e : sdk_error),
    ~ blank aws_region -> ~ blank aws_account_id ->
    boto3_client w (strip aws_region) = inl e ->
    exists session',
      connect_to_aws w aws_region aws_account_id session
      = ([client_error e], Return session')
      /\ ecr_client_entry session' = Some None
      /\ repos_entry session' = repos_entry session
      /\ repository_section session' = repository_section session.
Proof.
  intros w aws_region aws_account_id session e Hr Ha B.
  rewrite connect_to_aws_cases, B.
  destruct (all _) eqn:A.
  - eexists. split; [reflexivity|]. repeat split.
  - apply all2_false_iff in A. rewrite !strip_nil_blank in A. tauto.
Qed.

Lemma connect_to_aws_keeps_old_list_witness :
  exists session',
    connect_to_aws
      {| boto3_client := fun _ => inl SdkNoCredentials;
         os_run := fun _ => ok; os_popen := fun _ => inl [] |}
      (lit "us-east-1") (lit "123456789012")
      {| ecr_client_entry := Some (Some aws_client);
         repos_entry := Some (Some [lit "my-app"]) |}
    = ([client_error SdkNoCredentials], Return session')
    /\ ecr_client_entry session' = Some None
    /\ repos_entry session' = Some (Some [lit "my-app"])
    /\ repository_section session'
       = repository_section
           {| ecr_client_entry := Some (Some aws_client);
              repos_entry := Some (Some [lit "my-app"]) |}.
Proof.
  apply (@connect_to_aws_keeps_old_list
           {| boto3_client := fun _ => inl SdkNoCredentials;
              os_run := fun _ => ok; os_popen := fun _ => inl [] |}
           (lit "us-east-1") (lit "123456789012")
           {| ecr_client_entry := Some (Some aws_client);
              repos_entry := Some (Some [lit "my-app"]) |}
           SdkNoCredentials).
  - intros H. apply strip_nil_blank in H. vm_compute in H. discriminate.
  - intros H. apply strip_nil_blank in H. vm_compute in H. discriminate.
  - reflexivity.
Defined.

(** X11. In every session the connect button can produce, the
    [ecr_client] key is present whenever the [repos] key is: the second
    section, shown only for a present list, never reads a missing
    [st.session_state.ecr_client].  The connect button itself never
    raises. *)
Theorem session_keys_invariant :
  forall (session : session_state),
    reachable session ->
    (repos_entry session <> None -> ecr_client_entry session <> None)
    /\ forall (w : env) (aws_region aws_account_id : str),
         exists session',
           result (connect_to_aws w aws_region aws_account_id session)
           = Return session'.
Proof.
  intros session H. split.
  - induction H as [|w r a session session' H IH E];
      [intros F; exfalso; apply F; reflexivity|].
    revert E. rewrite connect_to_aws_cases.
    destruct (all _).
    + destruct (boto3_client w (strip r)) as [e|c].
      * intros E. injection E as <-. discriminate.
      * destruct (paginate_error c); intros E; injection E as <-;
          discriminate.
    + intros E. injection E as <-. exact IH.
  - intros w r a. rewrite connect_to_aws_cases.
    destruct (all _); [|eexists; reflexivity].
    destruct (boto3_client w (strip r)) as [e|c]; [eexists; reflexivity|].
    destruct (paginate_error c); eexists; reflexivity.
Qed.

Lemma session_keys_invariant_witness :
  ecr_client_entry
    {| ecr_client_entry := Some (Some aws_client);
       repos_entry := Some (Some [lit "my-app"]) |} <> None.
Proof.
  apply (@session_keys_invariant
           {| ecr_client_entry := Some (Some aws_client);
              repos_entry := Some (Some [lit "my-app"]) |}).
  - apply (@reachable_connect (machine ok ok (inl [])) (lit "us-east-1")
             (lit "123456789012")
             {| ecr_client_entry := None; repos_entry := None |}).
    + apply reachable_fresh.
    + vm_compute. reflexivity.
  - discriminate.
Defined.

(** A token made from a username and a password without colon. *)
Lemma ecr_login_token_plain_witness :
  engine_commands
    (events (ecr_login (machine ok ok (inl [])) aws_client
               (lit "123456789012") (lit "us-east-1")))
  = [login_command (lit "AWS") (lit "secret")
       (registry_host (lit "123456789012") (lit "us-east-1"))].
Proof.
  apply (@ecr_login_token_plain (machine ok ok (inl [])) aws_client
           {| authorizationToken := aws_token;
              proxyEndpoint :=
                lit "https://123456789012.dkr.ecr.us-east-1.amazonaws.com" |}
           [] (lit "AWS") (lit "secret")).
  - reflexivity.
  - vm_compute. reflexivity.
  - repeat constructor.
  - repeat constructor.
  - vm_compute. intuition discriminate.
  - vm_compute. intuition discriminate.
Defined.
